(** * MessageHandler: command routing and event emission

    A shallow embedding of [MessageHandler.jsm] (remote/shared/messagehandler):
    the [ContextDescriptorType] enum, the [MessageHandler] class with its
    constructor, accessors, [destroy], [emitEvent], [handleCommand],
    [supportsCommand], [forwardCommand] and the static members a sub class
    has to provide.

    JavaScript objects live in a heap indexed by references; every method
    takes the reference of its receiver ([self], the source's [this]) and
    runs in a state-and-exception monad over the heap and the list of
    observable effects (logger output, [emit] calls, calls into modules
    and into [forwardCommand]).  A [throw] is an abrupt completion; a
    Promise is a value. *)

From Stdlib Require Import ZArith Ascii.
From stdpp Require Import base option strings list countable gmap.

Local Open Scope string_scope.

(** ** JavaScript values, errors and completions *)

(** An error object: the name of its class and its message. *)
Record JsError := mkError { err_name : string; err_message : string }.

Global Instance JsError_eq_dec : EqDecision JsError.
Proof. solve_decision. Defined.

(** [new Error(msg)]. *)
Definition Error (msg : string) : JsError := mkError "Error" msg.
(** [new TypeError(msg)], raised by the runtime itself. *)
Definition TypeError (msg : string) : JsError := mkError "TypeError" msg.
(** [new lazy.error.UnsupportedCommandError(msg)] (Errors.jsm). *)
Definition UnsupportedCommandError (msg : string) : JsError :=
  mkError "UnsupportedCommandError" msg.

#[warnings="-register-all"]
Inductive JsValue : Type :=
| VUndefined
| VNull
| VBool (b : bool)
| VNum (n : Z)
| VStr (s : string)
| VObj (props : list (string * JsValue))
| VPromise (p : PromiseState)
with PromiseState : Type :=
| Pending
| Fulfilled (v : JsValue)
| Rejected (e : JsError).

(** The outcome of evaluating a call: a value, or a synchronous exception. *)
Inductive Completion (A : Type) : Type :=
| Normal (a : A)
| Throw (e : JsError).
Arguments Normal {A} a.
Arguments Throw {A} e.

Definition is_Normal {A} (c : Completion A) : bool :=
  match c with Normal _ => true | Throw _ => false end.

(** A call hands its caller a promise-like result: it completes normally
    with a Promise (pending, fulfilled or rejected). *)
Definition returns_promise (c : Completion JsValue) : Prop :=
  match c with
  | Normal (VPromise _) => True
  | _ => False
  end.

(** The failure reaches the caller as a rejected result. *)
Definition rejects_with (c : Completion JsValue) (e : JsError) : Prop :=
  c = Normal (VPromise (Rejected e)).

(** ** ContextDescriptor *)

(** [const ContextDescriptorType = { All: "All", TopBrowsingContext:
    "TopBrowsingContext" }]. *)
Inductive ContextDescriptorType := All | TopBrowsingContext.

Global Instance ContextDescriptorType_eq_dec : EqDecision ContextDescriptorType.
Proof. solve_decision. Defined.

(** The string each member of the enum stands for. *)
Definition ContextDescriptorType_value (t : ContextDescriptorType) : string :=
  match t with
  | All => "All"
  | TopBrowsingContext => "TopBrowsingContext"
  end.

(** The members of the enum object, in declaration order. *)
Definition ContextDescriptorType_members : list (string * string) :=
  [("All", "All"); ("TopBrowsingContext", "TopBrowsingContext")].

(** Reading a descriptor's [type] string back into the enum. *)
Definition ContextDescriptorType_of_string (s : string)
  : option ContextDescriptorType :=
  if decide (s = "All") then Some All
  else if decide (s = "TopBrowsingContext") then Some TopBrowsingContext
  else None.

(** [@typedef ContextDescriptor]: [type], and an [id] that can be omitted
    for [All]. *)
Record ContextDescriptor := {
  cd_type : ContextDescriptorType;
  cd_id : option string;
}.

Global Instance ContextDescriptor_eq_dec : EqDecision ContextDescriptor.
Proof. solve_decision. Defined.

(** ** Commands *)

(** [@typedef CommandDestination]. *)
Record CommandDestination := {
  dest_type : string;
  dest_id : option string;
  dest_contextDescriptor : option ContextDescriptor;
}.

Global Instance CommandDestination_eq_dec : EqDecision CommandDestination.
Proof. solve_decision. Defined.

(** [@typedef Command]; [retryOnAbort] is optional. *)
Record Command := {
  commandName : string;
  moduleName : string;
  params : JsValue;
  destination : CommandDestination;
  retryOnAbort : option bool;
}.

(** The flag with the default its typedef documents ("Defaults to `false`"). *)
Definition retryOnAbort_or_default (c : Command) : bool :=
  default false (retryOnAbort c).

Global Instance ContextDescriptorType_countable : Countable ContextDescriptorType.
Proof.
  refine (inj_countable'
            (fun t => match t with All => false | TopBrowsingContext => true end)
            (fun b : bool => if b then TopBrowsingContext else All) _).
  by intros [].
Defined.

Global Instance ContextDescriptor_countable : Countable ContextDescriptor.
Proof.
  refine (inj_countable'
            (fun d => (cd_type d, cd_id d))
            (fun p => {| cd_type := p.1; cd_id := p.2 |}) _).
  by intros [].
Defined.

Global Instance CommandDestination_countable : Countable CommandDestination.
Proof.
  refine (inj_countable'
            (fun d => (dest_type d, dest_id d, dest_contextDescriptor d))
            (fun p => {| dest_type := p.1.1; dest_id := p.1.2;
                         dest_contextDescriptor := p.2 |}) _).
  by intros [].
Defined.

(** ** Modules (Module.jsm is an external collaborator)

    The handler only asks a module class whether it supports a method name,
    instantiates it, asks the instance the same question and calls
    [module[commandName](params, destination)]. *)

(** A module instance.  [inst_call c p d] is the completion of evaluating
    [module[c](p, d)], the runtime's TypeError for a property that is not
    callable included. *)
Record ModuleInstance := {
  inst_class : string;
  inst_supportsMethod : string -> bool;
  inst_call : string -> JsValue -> CommandDestination -> Completion JsValue;
}.

(** A module class: its static [supportsMethod] and what [new cls(handler)]
    builds. *)
Record ModuleClass := {
  cls_name : string;
  cls_supportsMethod : string -> bool;
  cls_new : ModuleInstance;
}.

(** The static module registry the ModuleCache loads classes from: the
    classes for a module name as seen from a handler type and a
    destination, and the one class instantiated for them, if any. *)
Record ModuleRegistry := {
  reg_classes : string -> string -> CommandDestination -> list ModuleClass;
  reg_resolve : string -> string -> CommandDestination -> option ModuleClass;
}.

(** ** Handler classes

    [this.constructor]: the static members and the overridable methods of
    the class an instance was created from.  A static getter that throws
    is an abrupt completion. *)
Record HandlerClass := {
  class_name : string;
  static_modulePath : Completion string;
  static_type : Completion string;
  static_getIdFromContext : JsValue -> Completion string;
  proto_forwardCommand : Command -> Completion JsValue;
  proto_applyInitialSessionDataItems : list JsValue -> Completion JsValue;
}.

(** The base class itself: every member a sub class needs to implement
    throws [new Error("Not implemented")]; [applyInitialSessionDataItems]
    is [async] with an empty body. *)
Definition MessageHandlerBase : HandlerClass := {|
  class_name := "MessageHandler";
  static_modulePath := Throw (Error "Not implemented");
  static_type := Throw (Error "Not implemented");
  static_getIdFromContext := fun _ => Throw (Error "Not implemented");
  proto_forwardCommand := fun _ => Throw (Error "Not implemented");
  proto_applyInitialSessionDataItems :=
    fun _ => Normal (VPromise (Fulfilled VUndefined));
|}.

(** ** The heap *)

Definition ref := nat.

(** The instance fields the constructor assigns. *)
Record MessageHandler := {
  constructor : HandlerClass;
  _moduleCache : ref;
  _sessionId : string;
  _context : JsValue;
  _contextId : string;
  _eventsDispatcher : ref;
}.

(** Modelled from the spec: the ModuleCache object (ModuleCache.jsm is not
    part of the sources at hand), a per-handler cache mapping (module name,
    destination) to the instantiated module. *)
Record ModuleCache := {
  mc_messageHandler : ref;
  mc_modules : gmap (string * CommandDestination) ModuleInstance;
}.

(** Modelled from the spec: the EventsDispatcher object (EventsDispatcher.jsm
    is not part of the sources at hand), a per-handler hub of named
    listeners. *)
Record EventsDispatcher := {
  ed_messageHandler : ref;
  ed_listeners : list (string * nat);
}.

Inductive HeapObj :=
| OHandler (h : MessageHandler)
| OModuleCache (c : ModuleCache)
| OEventsDispatcher (d : EventsDispatcher).

(** What [emit] is called with. *)
Record MessageHandlerEvent := {
  ev_name : string;
  ev_data : JsValue;
  ev_isProtocolEvent : bool;
  ev_sessionId : string;
}.

Inductive EmitArg :=
| ArgEnvelope (e : MessageHandlerEvent)
| ArgData (d : JsValue)
| ArgHandler (h : ref).

(** Observable effects, oldest first. *)
Inductive Effect :=
| LogTrace (msg : string)
| Emit (emitter : ref) (name : string) (arg : EmitArg)
| Invoke (module : string) (command : string) (p : JsValue)
         (d : CommandDestination)
| Forward (handler : ref) (c : Command)
| DestroyEventsDispatcher (d : ref)
| DestroyModuleCache (c : ref)
| DestroyModule (module : string)
| ApplySessionData (handler : ref) (items : list JsValue).

Record World := {
  heap : gmap ref HeapObj;
  next : ref;
  effects : list Effect;
}.

Definition empty_world : World := {| heap := ∅; next := 0; effects := [] |}.

(** ** The monad *)

Definition M (A : Type) : Type := World -> Completion A * World.

Global Instance M_ret : MRet M := fun A a w => (Normal a, w).

Global Instance M_bind : MBind M := fun A B k m w =>
  match m w with
  | (Normal a, w') => k a w'
  | (Throw e, w') => (Throw e, w')
  end.

Definition throw {A} (e : JsError) : M A := fun w => (Throw e, w).

Definition lift {A} (c : Completion A) : M A := fun w => (c, w).

Definition effect (e : Effect) : M unit := fun w =>
  (Normal tt, {| heap := heap w; next := next w; effects := effects w ++ [e] |}).

Definition alloc (o : HeapObj) : M ref := fun w =>
  (Normal (next w),
   {| heap := <[next w := o]> (heap w); next := S (next w);
      effects := effects w |}).

Definition reserve : M ref := fun w =>
  (Normal (next w),
   {| heap := heap w; next := S (next w); effects := effects w |}).

Definition store (r : ref) (o : HeapObj) : M unit := fun w =>
  (Normal tt,
   {| heap := <[r := o]> (heap w); next := next w; effects := effects w |}).

(** Reading a field of something that is not the expected object is the
    runtime's TypeError. *)
Definition getHandler (r : ref) : M MessageHandler := fun w =>
  match heap w !! r with
  | Some (OHandler h) => (Normal h, w)
  | _ => (Throw (TypeError "not a MessageHandler"), w)
  end.

Definition getModuleCache (r : ref) : M ModuleCache := fun w =>
  match heap w !! r with
  | Some (OModuleCache c) => (Normal c, w)
  | _ => (Throw (TypeError "not a ModuleCache"), w)
  end.

Definition getEventsDispatcher (r : ref) : M EventsDispatcher := fun w =>
  match heap w !! r with
  | Some (OEventsDispatcher d) => (Normal d, w)
  | _ => (Throw (TypeError "not an EventsDispatcher"), w)
  end.

(** [lazy.logger.trace(msg)]. *)
Definition logger_trace (msg : string) : M unit := effect (LogTrace msg).

(** Running a list of actions in order, stopping at the first throw. *)
Fixpoint sequence_ (ms : list (M unit)) : M unit :=
  match ms with
  | [] => mret tt
  | m :: ms' => m ;; sequence_ ms'
  end.

(** ** The collaborators a handler owns *)

Section Handler.

Context (registry : ModuleRegistry).

(** Modelled from the spec: [new ModuleCache(messageHandler)], absent from
    the sources; the cache starts empty. *)
Definition new_ModuleCache (handler : ref) : ModuleCache :=
  {| mc_messageHandler := handler; mc_modules := ∅ |}.

(** Modelled from the spec: [ModuleCache.getAllModuleClasses(moduleName,
    destination)], absent from the sources: a pure lookup against the
    static module registry filtered by the handler type and the
    destination; it instantiates nothing. *)
Definition ModuleCache_getAllModuleClasses (c : ref) (moduleName : string)
    (destination : CommandDestination) : M (list ModuleClass) :=
  cache ← getModuleCache c;
  h ← getHandler (mc_messageHandler cache);
  ty ← lift (static_type (constructor h));
  mret (reg_classes registry ty moduleName destination).

(** Modelled from the spec: [ModuleCache.getModuleInstance(moduleName,
    destination)], absent from the sources: the cached instance for the key
    if there is one; otherwise the class the registry resolves for (module
    name, handler type, destination) is instantiated, cached and returned;
    [None] is the source's [null]. *)
Definition ModuleCache_getModuleInstance (c : ref) (moduleName : string)
    (destination : CommandDestination) : M (option ModuleInstance) :=
  cache ← getModuleCache c;
  match mc_modules cache !! (moduleName, destination) with
  | Some m => mret (Some m)
  | None =>
      h ← getHandler (mc_messageHandler cache);
      ty ← lift (static_type (constructor h));
      match reg_resolve registry ty moduleName destination with
      | Some cls =>
          let m := cls_new cls in
          store c (OModuleCache
                     {| mc_messageHandler := mc_messageHandler cache;
                        mc_modules :=
                          <[(moduleName, destination) := m]> (mc_modules cache) |}) ;;
          mret (Some m)
      | None => mret None
      end
  end.

(** Modelled from the spec: [ModuleCache.destroy()], absent from the
    sources: destroys and releases every cached instance. *)
Definition ModuleCache_destroy (c : ref) : M unit :=
  cache ← getModuleCache c;
  effect (DestroyModuleCache c) ;;
  sequence_ ((fun kv => effect (DestroyModule (inst_class kv.2)))
               <$> map_to_list (mc_modules cache)) ;;
  store c (OModuleCache
             {| mc_messageHandler := mc_messageHandler cache; mc_modules := ∅ |}).

(** Modelled from the spec: [new EventsDispatcher(messageHandler)], absent
    from the sources; no listener is registered yet. *)
Definition new_EventsDispatcher (handler : ref) : EventsDispatcher :=
  {| ed_messageHandler := handler; ed_listeners := [] |}.

(** Modelled from the spec: [EventsDispatcher.destroy()], absent from the
    sources: clears all listeners. *)
Definition EventsDispatcher_destroy (d : ref) : M unit :=
  disp ← getEventsDispatcher d;
  effect (DestroyEventsDispatcher d) ;;
  store d (OEventsDispatcher
             {| ed_messageHandler := ed_messageHandler disp; ed_listeners := [] |}).

(** Modelled from the spec: [EventEmitter.emit(name, arg)] inherited by the
    handler (EventEmitter.jsm is absent from the sources): the event is
    delivered to the listeners registered for [name]; a listener's
    exception is contained, so the call itself returns normally. *)
Definition emit (self : ref) (name : string) (arg : EmitArg) : M unit :=
  effect (Emit self name arg).

(** ** MessageHandler *)

(** [constructor(sessionId, context)], for an instance of class [cls].
    The statements run in source order; the object is entered in the heap
    once its last field is assigned, since nothing can reach it before the
    constructor returns.  A throwing [getIdFromContext] aborts the
    construction. *)
Definition new_MessageHandler (cls : HandlerClass) (sessionId : string)
    (context : JsValue) : M ref :=
  self ← reserve;                                            (* super() *)
  mc ← alloc (OModuleCache (new_ModuleCache self));
  cid ← lift (static_getIdFromContext cls context);
  ed ← alloc (OEventsDispatcher (new_EventsDispatcher self));
  store self (OHandler {| constructor := cls;
                          _moduleCache := mc;
                          _sessionId := sessionId;
                          _context := context;
                          _contextId := cid;
                          _eventsDispatcher := ed |}) ;;
  mret self.

(** [get contextId()]. *)
Definition contextId (self : ref) : M string :=
  h ← getHandler self; mret (_contextId h).

(** [get eventsDispatcher()]. *)
Definition eventsDispatcher (self : ref) : M ref :=
  h ← getHandler self; mret (_eventsDispatcher h).

(** [get sessionId()]. *)
Definition sessionId (self : ref) : M string :=
  h ← getHandler self; mret (_sessionId h).

(** [get name()]:
    [[this.sessionId, this.constructor.type, this.contextId].join("-")]. *)
Definition name (self : ref) : M string :=
  sid ← sessionId self;
  h ← getHandler self;
  ty ← lift (static_type (constructor h));
  cid ← contextId self;
  mret (String.concat "-" [sid; ty; cid]).

(** [destroy()]. *)
Definition destroy (self : ref) : M unit :=
  h ← getHandler self;
  ty ← lift (static_type (constructor h));
  sid ← sessionId self;
  logger_trace ("MessageHandler " +:+ ty +:+ " for session " +:+ sid
                +:+ " is being destroyed") ;;
  EventsDispatcher_destroy (_eventsDispatcher h) ;;
  ModuleCache_destroy (_moduleCache h) ;;
  emit self "message-handler-destroyed" (ArgHandler self).

(** The [options] argument of [emitEvent]. *)
Record EmitEventOptions := { isProtocolEvent : option bool }.

(** [emitEvent(name, data, options = {})]. *)
Definition emitEvent (self : ref) (name : string) (data : JsValue)
    (options : option EmitEventOptions) : M unit :=
  let options := default {| isProtocolEvent := None |} options in
  let isProtocolEvent := default false (isProtocolEvent options) in
  sid ← sessionId self;
  emit self "message-handler-event"
       (ArgEnvelope {| ev_name := name; ev_data := data;
                       ev_isProtocolEvent := isProtocolEvent;
                       ev_sessionId := sid |}) ;;
  if negb isProtocolEvent then emit self name (ArgData data) else mret tt.

(** [getAllModuleClasses(moduleName, destination)]. *)
Definition getAllModuleClasses (self : ref) (moduleName : string)
    (destination : CommandDestination) : M (list ModuleClass) :=
  h ← getHandler self;
  ModuleCache_getAllModuleClasses (_moduleCache h) moduleName destination.

(** [supportsCommand(moduleName, commandName, destination)]:
    [.some(cls => cls.supportsMethod(commandName))]. *)
Definition supportsCommand (self : ref) (moduleName commandName : string)
    (destination : CommandDestination) : M bool :=
  classes ← getAllModuleClasses self moduleName destination;
  mret (existsb (fun cls => cls_supportsMethod cls commandName) classes).

(** [forwardCommand(command)], dispatched on the class of the instance;
    the base class throws. *)
Definition forwardCommand (self : ref) (command : Command) : M JsValue :=
  h ← getHandler self;
  effect (Forward self command) ;;
  lift (proto_forwardCommand (constructor h) command).

(** [handleCommand(command)]. *)
Definition handleCommand (self : ref) (command : Command) : M JsValue :=
  let moduleName := moduleName command in
  let commandName := commandName command in
  let params := params command in
  let destination := destination command in
  logger_trace ("Received command " +:+ moduleName +:+ "." +:+ commandName
                +:+ " for destination " +:+ dest_type destination) ;;
  supported ← supportsCommand self moduleName commandName destination;
  if negb supported then
    throw (UnsupportedCommandError
             (moduleName +:+ "." +:+ commandName
              +:+ " not supported for destination " +:+ dest_type destination))
  else
    h ← getHandler self;
    module ← ModuleCache_getModuleInstance (_moduleCache h) moduleName destination;
    match module with
    | Some m =>
        if inst_supportsMethod m commandName then
          effect (Invoke (inst_class m) commandName params destination) ;;
          lift (inst_call m commandName params destination)
        else forwardCommand self command
    | None => forwardCommand self command
    end.

(** [toString()]. *)
Definition toString (self : ref) : M string :=
  h ← getHandler self;
  n ← name self;
  mret ("[object " +:+ class_name (constructor h) +:+ " " +:+ n +:+ "]").

(** [applyInitialSessionDataItems(sessionDataItems)], dispatched on the
    class of the instance; the base class does nothing. *)
Definition applyInitialSessionDataItems (self : ref) (items : list JsValue)
  : M JsValue :=
  h ← getHandler self;
  effect (ApplySessionData self items) ;;
  lift (proto_applyInitialSessionDataItems (constructor h) items).

End Handler.

(** ** Observations on effects *)

(** [emit] calls under the event name [n]. *)
Definition is_emit_named (n : string) (e : Effect) : bool :=
  match e with
  | Emit _ n' _ => bool_decide (n' = n)
  | _ => false
  end.

Definition emissions (n : string) (l : list Effect) : nat :=
  length (List.filter (is_emit_named n) l).

(** [emit("message-handler-event", { name, data, isProtocolEvent,
    sessionId })] calls. *)
Definition is_envelope_emit (e : Effect) : bool :=
  match e with
  | Emit _ n (ArgEnvelope _) => bool_decide (n = "message-handler-event")
  | _ => false
  end.

Definition is_invoke (e : Effect) : bool :=
  match e with Invoke _ _ _ _ => true | _ => false end.

Definition is_forward (e : Effect) : bool :=
  match e with Forward _ _ => true | _ => false end.

Definition invocations (l : list Effect) : nat := length (List.filter is_invoke l).
Definition forwards (l : list Effect) : nat := length (List.filter is_forward l).

(** The effects a run added to those already in [w]. *)
Definition effects_since (w w' : World) : list Effect :=
  drop (length (effects w)) (effects w').

(** A command fails with [e]: thrown at the caller, or handed back as a
    rejected promise. *)
Definition fails_with (c : Completion JsValue) (e : JsError) : Prop :=
  c = Throw e \/ rejects_with c e.

(** The message of the error [handleCommand] raises for a command. *)
Definition unsupported_message (c : Command) : string :=
  moduleName c +:+ "." +:+ commandName c
  +:+ " not supported for destination " +:+ dest_type (destination c).

(** The line [handleCommand] logs on entry. *)
Definition received_message (c : Command) : string :=
  "Received command " +:+ moduleName c +:+ "." +:+ commandName c
  +:+ " for destination " +:+ dest_type (destination c).

(** Whether one of the classes the registry lists for a command, as seen
    from a handler of type [ty], declares support for its name. *)
Definition class_supports (registry : ModuleRegistry) (ty : string)
    (cmd : Command) : bool :=
  existsb (fun cls => cls_supportsMethod cls (commandName cmd))
          (reg_classes registry ty (moduleName cmd) (destination cmd)).

(** The line [destroy] logs on entry. *)
Definition destroyed_message (ty sid : string) : string :=
  "MessageHandler " +:+ ty +:+ " for session " +:+ sid +:+ " is being destroyed".

(** The instance [getModuleInstance] hands back for a command, given the
    cache [c] of a handler of type [ty]. *)
Definition local_module (registry : ModuleRegistry) (ty : string)
    (c : ModuleCache) (cmd : Command) : option ModuleInstance :=
  match mc_modules c !! (moduleName cmd, destination cmd) with
  | Some m => Some m
  | None => cls_new <$> reg_resolve registry ty (moduleName cmd) (destination cmd)
  end.

(** The module that handles [cmd] locally, if any: the instance exists and
    reports support for the command name. *)
Definition handles_locally (registry : ModuleRegistry) (ty : string)
    (c : ModuleCache) (cmd : Command) : option ModuleInstance :=
  match local_module registry ty c cmd with
  | Some m => if inst_supportsMethod m (commandName cmd) then Some m else None
  | None => None
  end.

(** The cache once [getModuleInstance] has run for a command: a freshly
    instantiated module is added under the command's key. *)
Definition cache_after (registry : ModuleRegistry) (ty : string)
    (c : ModuleCache) (cmd : Command) : ModuleCache :=
  match mc_modules c !! (moduleName cmd, destination cmd) with
  | Some _ => c
  | None =>
      match reg_resolve registry ty (moduleName cmd) (destination cmd) with
      | Some cls =>
          {| mc_messageHandler := mc_messageHandler c;
             mc_modules :=
               <[(moduleName cmd, destination cmd) := cls_new cls]> (mc_modules c) |}
      | None => c
      end
  end.

(** A handler that is fully constructed: its own object and the two objects
    it owns are in the heap, and its class provides [type]. *)
Record live (w : World) (self : ref) (h : MessageHandler) (ty : string)
    (c : ModuleCache) : Prop := {
  live_handler : heap w !! self = Some (OHandler h);
  live_type : static_type (constructor h) = Normal ty;
  live_cache : heap w !! _moduleCache h = Some (OModuleCache c);
  live_cache_owner : mc_messageHandler c = self;
  live_dispatcher :
    exists d, heap w !! _eventsDispatcher h = Some (OEventsDispatcher d);
}.

(** [m] never writes the handler object at [self]: whatever the outcome,
    the fields [h] found there before the run are there after it. *)
Definition preserves {A} (self : ref) (h : MessageHandler) (m : M A) : Prop :=
  forall w, heap w !! self = Some (OHandler h) ->
            heap (m w).2 !! self = Some (OHandler h).

(** ** Sequences of operations on one handler *)

Inductive Operation :=
| OpHandleCommand (c : Command)
| OpEmitEvent (name : string) (data : JsValue) (options : option EmitEventOptions)
| OpApplyInitialSessionDataItems (items : list JsValue)
| OpDestroy.

(** The world after one operation, whether it returned or threw. *)
Definition perform (registry : ModuleRegistry) (self : ref) (op : Operation)
    (w : World) : World :=
  match op with
  | OpHandleCommand c => (handleCommand registry self c w).2
  | OpEmitEvent n d o => (emitEvent self n d o w).2
  | OpApplyInitialSessionDataItems items =>
      (applyInitialSessionDataItems self items w).2
  | OpDestroy => (destroy self w).2
  end.

Definition perform_all (registry : ModuleRegistry) (self : ref)
    (ops : list Operation) (w : World) : World :=
  fold_left (fun w op => perform registry self op w) ops w.

(** ** Stronger statements, refuted on the fixtures below *)

(** [handleCommand] fails with the UnsupportedCommandError naming the
    command exactly when [supportsCommand] answers false. *)
Definition UnsupportedCommandError_iff_unsupported (registry : ModuleRegistry)
    (self : ref) (cmd : Command) (w : World) : Prop :=
  fails_with (handleCommand registry self cmd w).1
             (UnsupportedCommandError (unsupported_message cmd))
  <-> (supportsCommand registry self (moduleName cmd) (commandName cmd)
                       (destination cmd) w).1 = Normal false.

(** [handleCommand] and [forwardCommand] hand back a promise-like result,
    so that no failure is a synchronous exception. *)
Definition failures_are_rejections (registry : ModuleRegistry)
    (self : ref) (cmd : Command) (w : World) : Prop :=
  returns_promise (handleCommand registry self cmd w).1
  /\ returns_promise (forwardCommand self cmd w).1.

(** Two [destroy()] calls in a row raise no error and emit
    "message-handler-destroyed" once in total. *)
Definition destroy_notifies_once (self : ref) (w : World) : Prop :=
  let r := (destroy self ;; destroy self) w in
  r.1 = Normal tt
  /\ emissions "message-handler-destroyed" (effects_since w r.2) = 1.

(** [forwardCommand] fails with a DestinationUnreachableError. *)
Definition forwardCommand_unreachable (self : ref) (cmd : Command) (w : World)
  : Prop :=
  exists msg,
    fails_with (forwardCommand self cmd w).1
               (mkError "DestinationUnreachableError" msg).

(** ** Matching a ContextDescriptor against a context *)

(** Modelled from the spec: [matchContext(descriptor, context)], which the
    sources at hand do not contain.  A context is known by the string id
    computed for it; [All] matches every context, and the descriptor of one
    specific context matches the context whose id it carries. *)
Definition matchContext (descriptor : ContextDescriptor) (contextId : string)
  : bool :=
  match cd_type descriptor with
  | All => true
  | TopBrowsingContext => bool_decide (cd_id descriptor = Some contextId)
  end.

(** ** Forwarding over a transport that can abort *)

Module Transport.

(** Modelled from the spec: what one attempt to send a command over the
    link to the next hop does.  The next hop answers (with a value or an
    error of its own), or the link is destroyed while the command is in
    flight. *)
Inductive Attempt :=
| Answered (r : Completion JsValue)
| Aborted.

(** Modelled from the spec: the forwarding handler's view of the link.
    The outcome of the n-th attempt, how often the next hop was resolved,
    and the attempts made so far (hop used, command sent), oldest first. *)
Record Link := {
  outcome : nat -> Attempt;
  resolutions : nat;
  attempts : list (nat * Command);
}.

(** Modelled from the spec: the TransportAbortError of the error taxonomy. *)
Definition TransportAbortError : JsError :=
  mkError "TransportAbortError" "the link to the next hop was destroyed".

(** Modelled from the spec: resolving the next hop anew; hops are numbered
    by resolution. *)
Definition resolveNextHop (l : Link) : nat * Link :=
  (resolutions l,
   {| outcome := outcome l; resolutions := S (resolutions l);
      attempts := attempts l |}).

(** Modelled from the spec: one attempt to send [c] to [hop]. *)
Definition send (hop : nat) (c : Command) (l : Link) : Attempt * Link :=
  (outcome l (length (attempts l)),
   {| outcome := outcome l; resolutions := resolutions l;
      attempts := attempts l ++ [(hop, c)] |}).

(** Modelled from the spec: the forwarding of a command by a handler with a
    transport (the sub classes' [forwardCommand] and their transport are
    absent from the sources; the [Command] typedef only declares
    [retryOnAbort]).  When the transport aborts and [retryOnAbort] is true,
    the next hop is resolved again and the command is sent once more; an
    abort without [retryOnAbort], or of the retry, is surfaced as a
    transport error. *)
Definition forwardCommand (c : Command) (l : Link) : Completion JsValue * Link :=
  let '(hop, l1) := resolveNextHop l in
  let '(a1, l2) := send hop c l1 in
  match a1 with
  | Answered r => (r, l2)
  | Aborted =>
      if retryOnAbort_or_default c then
        let '(hop', l3) := resolveNextHop l2 in
        let '(a2, l4) := send hop' c l3 in
        match a2 with
        | Answered r => (r, l4)
        | Aborted => (Throw TransportAbortError, l4)
        end
      else (Throw TransportAbortError, l2)
  end.

End Transport.

(** ** Fixtures *)

Module Fixture.

(** A module [nav] with one command [go] that answers [{ ok: true }]. *)
Definition navInstance : ModuleInstance := {|
  inst_class := "nav";
  inst_supportsMethod := fun c => bool_decide (c = "go");
  inst_call := fun c _ _ =>
    if bool_decide (c = "go") then Normal (VObj [("ok", VBool true)])
    else Throw (TypeError "module[commandName] is not a function");
|}.

Definition navClass : ModuleClass := {|
  cls_name := "nav";
  cls_supportsMethod := fun c => bool_decide (c = "go");
  cls_new := navInstance;
|}.

(** The registry of a leaf: [nav] is loaded and instantiated locally. *)
Definition leafRegistry : ModuleRegistry := {|
  reg_classes := fun _ m _ => if bool_decide (m = "nav") then [navClass] else [];
  reg_resolve := fun _ m _ => if bool_decide (m = "nav") then Some navClass else None;
|}.

(** The registry of a root: the class of [nav] is known for the destination,
    but no instance of it lives in the root's own layer. *)
Definition rootRegistry : ModuleRegistry := {|
  reg_classes := fun _ m _ => if bool_decide (m = "nav") then [navClass] else [];
  reg_resolve := fun _ _ _ => None;
|}.

Definition idOfContext (context : JsValue) : Completion string :=
  match context with
  | VStr s => Normal s
  | _ => Throw (TypeError "context has no id")
  end.

(** A sub class that inherits [forwardCommand] and
    [applyInitialSessionDataItems] from the base class. *)
Definition Leaf : HandlerClass := {|
  class_name := "LeafMessageHandler";
  static_modulePath := Normal "leaf";
  static_type := Normal "Leaf";
  static_getIdFromContext := idOfContext;
  proto_forwardCommand := proto_forwardCommand MessageHandlerBase;
  proto_applyInitialSessionDataItems :=
    proto_applyInitialSessionDataItems MessageHandlerBase;
|}.

(** A sub class whose next hop turns every command down as unsupported;
    the failure comes back as a rejected promise. *)
Definition Root : HandlerClass := {|
  class_name := "RootMessageHandler";
  static_modulePath := Normal "root";
  static_type := Normal "Root";
  static_getIdFromContext := fun _ => Normal "ROOT";
  proto_forwardCommand := fun c =>
    Normal (VPromise (Rejected (UnsupportedCommandError (unsupported_message c))));
  proto_applyInitialSessionDataItems :=
    proto_applyInitialSessionDataItems MessageHandlerBase;
|}.

Definition leafDestination : CommandDestination :=
  {| dest_type := "Leaf"; dest_id := Some "ctx-42"; dest_contextDescriptor := None |}.

Definition go : Command := {|
  commandName := "go";
  moduleName := "nav";
  params := VObj [("url", VStr "https://example.com")];
  destination := leafDestination;
  retryOnAbort := None;
|}.

Definition stop : Command := {|
  commandName := "stop";
  moduleName := "nav";
  params := VUndefined;
  destination := leafDestination;
  retryOnAbort := None;
|}.

Definition goRetrying : Command := {|
  commandName := "go";
  moduleName := "nav";
  params := VUndefined;
  destination := leafDestination;
  retryOnAbort := Some true;
|}.

(** The world after [new Leaf("S1", "ctx-42")]; the handler is object 0. *)
Definition leafWorld : World :=
  (new_MessageHandler Leaf "S1" (VStr "ctx-42") empty_world).2.

Definition leafHandler : MessageHandler := {|
  constructor := Leaf;
  _moduleCache := 1;
  _sessionId := "S1";
  _context := VStr "ctx-42";
  _contextId := "ctx-42";
  _eventsDispatcher := 2;
|}.

(** The world after [new Root("S1", null)]; the handler is object 0. *)
Definition rootWorld : World :=
  (new_MessageHandler Root "S1" VNull empty_world).2.

Definition rootHandler : MessageHandler := {|
  constructor := Root;
  _moduleCache := 1;
  _sessionId := "S1";
  _context := VNull;
  _contextId := "ROOT";
  _eventsDispatcher := 2;
|}.

(** A link whose first attempt aborts and whose later attempts answer. *)
Definition flakyLink : Transport.Link := {|
  Transport.outcome := fun n =>
    match n with
    | 0 => Transport.Aborted
    | _ => Transport.Answered (Normal (VObj [("ok", VBool true)]))
    end;
  Transport.resolutions := 0;
  Transport.attempts := [];
|}.

(** A session on the leaf: a handled command, an event, the initial
    session data, a refused command, destruction, and a command after it. *)
Definition session : list Operation :=
  [OpHandleCommand go;
   OpEmitEvent "nav.navigated" (VObj [("url", VStr "https://example.com")]) None;
   OpApplyInitialSessionDataItems [];
   OpHandleCommand stop;
   OpDestroy;
   OpHandleCommand go].

End Fixture.

(** ** Further observations *)

(** [m] never writes the object at [r]. *)
Definition keeps {A} (r : ref) (m : M A) : Prop :=
  forall w, heap (m w).2 !! r = heap w !! r.

(** Whether a string contains the separator of [name], "-". *)
Fixpoint has_dash (s : string) : bool :=
  match s with
  | EmptyString => false
  | String c s' => if Ascii.eqb c "-"%char then true else has_dash s'
  end.

(** The same command with another [retryOnAbort]. *)
Definition with_retryOnAbort (c : Command) (r : option bool) : Command :=
  {| commandName := commandName c;
     moduleName := moduleName c;
     params := params c;
     destination := destination c;
     retryOnAbort := r |}.

(** What [emitEvent(name, data, options)] passes to [emit], in order. *)
Definition emitEvent_effects (self : ref) (sid : string) (name : string)
    (data : JsValue) (options : option EmitEventOptions) : list Effect :=
  let isProtocol := default false (options ≫= isProtocolEvent) in
  Emit self "message-handler-event"
       (ArgEnvelope {| ev_name := name; ev_data := data;
                       ev_isProtocolEvent := isProtocol;
                       ev_sessionId := sid |})
  :: (if isProtocol then [] else [Emit self name (ArgData data)]).

(** The [emit] calls under the event name [n] that one operation makes:
    [destroy] notifies once, [emitEvent] emits the envelope and, unless the
    event is a protocol event, the event under its own name; the other
    operations emit nothing. *)
Definition op_emissions (n : string) (op : Operation) : nat :=
  match op with
  | OpDestroy => if decide (n = "message-handler-destroyed") then 1 else 0
  | OpEmitEvent name _ options =>
      (if decide (n = "message-handler-event") then 1 else 0)
      + (if default false (options ≫= isProtocolEvent) then 0
         else if decide (n = name) then 1 else 0)
  | OpHandleCommand _ => 0
  | OpApplyInitialSessionDataItems _ => 0
  end.

Module Scenario.

(** A sub class that implements [getIdFromContext] but leaves [type] (and
    [modulePath]) to the base class. *)
Definition Typeless : HandlerClass := {|
  class_name := "TypelessMessageHandler";
  static_modulePath := static_modulePath MessageHandlerBase;
  static_type := static_type MessageHandlerBase;
  static_getIdFromContext := Fixture.idOfContext;
  proto_forwardCommand := proto_forwardCommand MessageHandlerBase;
  proto_applyInitialSessionDataItems :=
    proto_applyInitialSessionDataItems MessageHandlerBase;
|}.

(** The world after [new Typeless("S1", "ctx-1")]; the handler is object 0. *)
Definition typelessWorld : World :=
  (new_MessageHandler Typeless "S1" (VStr "ctx-1") empty_world).2.

Definition typelessHandler : MessageHandler := {|
  constructor := Typeless;
  _moduleCache := 1;
  _sessionId := "S1";
  _context := VStr "ctx-1";
  _contextId := "ctx-1";
  _eventsDispatcher := 2;
|}.

(** A second leaf created after the one of [Fixture.leafWorld]; it is
    object 3 and owns objects 4 and 5. *)
Definition twoLeavesWorld : World :=
  (new_MessageHandler Fixture.Leaf "S1" (VStr "ctx-43") Fixture.leafWorld).2.

Definition secondLeafHandler : MessageHandler := {|
  constructor := Fixture.Leaf;
  _moduleCache := 4;
  _sessionId := "S1";
  _context := VStr "ctx-43";
  _contextId := "ctx-43";
  _eventsDispatcher := 5;
|}.

(** Two classes whose types differ by where the "-" falls. *)
Definition LeafA : HandlerClass := {|
  class_name := "LeafA";
  static_modulePath := Normal "leaf";
  static_type := Normal "b-c";
  static_getIdFromContext := Fixture.idOfContext;
  proto_forwardCommand := proto_forwardCommand MessageHandlerBase;
  proto_applyInitialSessionDataItems :=
    proto_applyInitialSessionDataItems MessageHandlerBase;
|}.

Definition LeafB : HandlerClass := {|
  class_name := "LeafB";
  static_modulePath := Normal "leaf";
  static_type := Normal "c";
  static_getIdFromContext := Fixture.idOfContext;
  proto_forwardCommand := proto_forwardCommand MessageHandlerBase;
  proto_applyInitialSessionDataItems :=
    proto_applyInitialSessionDataItems MessageHandlerBase;
|}.

(** A second leaf with the identity of the first, created after the one of
    [Fixture.leafWorld]; it is object 3 and owns objects 4 and 5. *)
Definition twinLeavesWorld : World :=
  (new_MessageHandler Fixture.Leaf "S1" (VStr "ctx-42") Fixture.leafWorld).2.

Definition twinLeafHandler : MessageHandler := {|
  constructor := Fixture.Leaf;
  _moduleCache := 4;
  _sessionId := "S1";
  _context := VStr "ctx-42";
  _contextId := "ctx-42";
  _eventsDispatcher := 5;
|}.

(** The world of [Fixture.leafWorld] once [nav.go] has been handled: the
    cache holds the instance of [nav]. *)
Definition busyLeafWorld : World :=
  (handleCommand Fixture.leafRegistry 0 Fixture.go Fixture.leafWorld).2.

End Scenario.

(** * Properties *)

(** ** Running the monad *)

Ltac run :=
  unfold mbind, M_bind, mret, M_ret, lift, throw, effect, store, alloc, reserve,
    logger_trace, emit, getHandler, getModuleCache, getEventsDispatcher in *;
  cbn in *.

Ltac unfold_handler :=
  unfold handleCommand, forwardCommand, supportsCommand, getAllModuleClasses,
    ModuleCache_getAllModuleClasses, ModuleCache_getModuleInstance,
    destroy, ModuleCache_destroy, EventsDispatcher_destroy, name, sessionId,
    contextId, applyInitialSessionDataItems, emitEvent, new_MessageHandler in *.

(** Case analysis on every heap lookup and completion met along a run. *)
Ltac paths := repeat (case_match; simplify_eq/=; try done).

Lemma run_bind {A B} (m : M A) (k : A -> M B) w :
  (m ≫= k) w =
  match m w with
  | (Normal a, w') => k a w'
  | (Throw e, w') => (Throw e, w')
  end.
Proof. reflexivity. Qed.

Lemma effects_since_app w w' l :
  effects w' = (effects w ++ l)%list -> effects_since w w' = l.
Proof. intros H. unfold effects_since. by rewrite H, drop_app_length. Qed.

Lemma emissions_app n l1 l2 :
  emissions n (l1 ++ l2) = emissions n l1 + emissions n l2.
Proof. unfold emissions. by rewrite List.filter_app, length_app. Qed.

Lemma sequence_effects {A} (f : A -> Effect) (l : list A) w :
  sequence_ ((fun a => effect (f a)) <$> l) w =
  (Normal tt,
   {| heap := heap w; next := next w; effects := (effects w ++ (f <$> l))%list |}).
Proof.
  revert w. induction l as [|a l IH]; intros w; cbn.
  - run. rewrite app_nil_r. by destruct w.
  - run. rewrite IH. cbn. by rewrite <- app_assoc.
Qed.

Lemma emissions_DestroyModule n (l : list (string * CommandDestination * ModuleInstance)) :
  emissions n ((fun kv => DestroyModule (inst_class kv.2)) <$> l) = 0.
Proof. by induction l. Qed.

(** ** The constructor *)

Lemma new_MessageHandler_throws cls sid ctx w e :
  static_getIdFromContext cls ctx = Throw e ->
  (new_MessageHandler cls sid ctx w).1 = Throw e.
Proof. intros H. unfold_handler. run. by rewrite H. Qed.

Lemma new_MessageHandler_returns cls sid ctx w cid :
  static_getIdFromContext cls ctx = Normal cid ->
  exists w',
    new_MessageHandler cls sid ctx w = (Normal (next w), w')
    /\ heap w' !! next w =
         Some (OHandler {| constructor := cls;
                           _moduleCache := S (next w);
                           _sessionId := sid;
                           _context := ctx;
                           _contextId := cid;
                           _eventsDispatcher := S (S (next w)) |})
    /\ heap w' !! S (next w) =
         Some (OModuleCache {| mc_messageHandler := next w; mc_modules := ∅ |})
    /\ heap w' !! S (S (next w)) =
         Some (OEventsDispatcher {| ed_messageHandler := next w; ed_listeners := [] |})
    /\ effects w' = effects w.
Proof.
  intros H. unfold_handler. run. rewrite H. cbn.
  eexists. split; [reflexivity|]. cbn.
  rewrite lookup_insert_eq.
  rewrite lookup_insert_ne by lia. rewrite lookup_insert_ne by lia.
  rewrite lookup_insert_eq.
  rewrite lookup_insert_ne by lia. rewrite lookup_insert_eq. done.
Qed.

Lemma new_MessageHandler_live cls sid ctx w self w' ty :
  new_MessageHandler cls sid ctx w = (Normal self, w') ->
  static_type cls = Normal ty ->
  exists h c,
    live w' self h ty c
    /\ constructor h = cls /\ _sessionId h = sid /\ _context h = ctx
    /\ static_getIdFromContext cls ctx = Normal (_contextId h)
    /\ mc_modules c = ∅.
Proof.
  intros Hnew Hty.
  destruct (static_getIdFromContext cls ctx) as [cid|e] eqn:Hid.
  - destruct (new_MessageHandler_returns cls sid ctx w cid Hid)
      as (w2 & Hrun & Hh & Hc & Hd & _).
    rewrite Hrun in Hnew. simplify_eq.
    eexists _, _. split; [split; cbn; eauto|done].
  - apply (new_MessageHandler_throws cls sid ctx w) in Hid.
    rewrite Hnew in Hid. discriminate.
Qed.

(** ** [supportsCommand] and [handleCommand] on a live handler *)

Section HandleCommand.

Context (registry : ModuleRegistry).

Lemma getAllModuleClasses_live w self h ty c mn d :
  live w self h ty c ->
  getAllModuleClasses registry self mn d w =
  (Normal (reg_classes registry ty mn d), w).
Proof.
  intros [Hh Hty Hc Ho _]. unfold_handler. run.
  rewrite Hh. cbn. rewrite Hc. cbn. rewrite Ho, Hh. cbn. by rewrite Hty.
Qed.

Lemma supportsCommand_live w self h ty c cmd :
  live w self h ty c ->
  supportsCommand registry self (moduleName cmd) (commandName cmd)
                  (destination cmd) w =
  (Normal (class_supports registry ty cmd), w).
Proof.
  intros Hl. unfold supportsCommand.
  unfold mbind, M_bind.
  by rewrite (getAllModuleClasses_live _ _ _ _ _ _ _ Hl).
Qed.

Lemma getModuleInstance_live w self h ty c cmd :
  live w self h ty c ->
  exists w',
    ModuleCache_getModuleInstance registry (_moduleCache h) (moduleName cmd)
                                  (destination cmd) w =
    (Normal (local_module registry ty c cmd), w')
    /\ heap w' = <[_moduleCache h := OModuleCache (cache_after registry ty c cmd)]> (heap w)
    /\ next w' = next w /\ effects w' = effects w.
Proof.
  intros [Hh Hty Hc Ho _]. unfold_handler. unfold local_module, cache_after. run.
  rewrite Hc. cbn.
  destruct (mc_modules c !! (moduleName cmd, destination cmd)) as [m|] eqn:Hm; cbn.
  - eexists. split; [reflexivity|]. by rewrite insert_id.
  - rewrite Ho, Hh. cbn. rewrite Hty. cbn.
    destruct (reg_resolve registry ty (moduleName cmd) (destination cmd)); cbn.
    + eexists. split; [reflexivity|]. cbn. done.
    + eexists. split; [reflexivity|]. by rewrite insert_id.
Qed.

(** The three ways through [handleCommand]. *)
Lemma handleCommand_unsupported w self h ty c cmd :
  live w self h ty c ->
  class_supports registry ty cmd = false ->
  handleCommand registry self cmd w =
  (Throw (UnsupportedCommandError (unsupported_message cmd)),
   {| heap := heap w; next := next w;
      effects := (effects w ++ [LogTrace (received_message cmd)])%list |}).
Proof.
  intros [Hh Hty Hc Ho _] Hs. unfold class_supports in Hs.
  unfold_handler. run. rewrite Hh. cbn. rewrite Hc. cbn.
  rewrite Ho, Hh. cbn. rewrite Hty. cbn. by rewrite Hs.
Qed.

Lemma handleCommand_local w self h ty c cmd m :
  live w self h ty c ->
  class_supports registry ty cmd = true ->
  handles_locally registry ty c cmd = Some m ->
  handleCommand registry self cmd w =
  (inst_call m (commandName cmd) (params cmd) (destination cmd),
   {| heap := <[_moduleCache h := OModuleCache (cache_after registry ty c cmd)]> (heap w);
      next := next w;
      effects := (effects w ++ [LogTrace (received_message cmd);
                                Invoke (inst_class m) (commandName cmd)
                                       (params cmd) (destination cmd)])%list |}).
Proof.
  intros [Hh Hty Hc Ho _] Hs Hm. unfold class_supports in Hs.
  unfold handles_locally, local_module in Hm. unfold cache_after.
  unfold_handler. run. rewrite Hh. cbn. rewrite Hc. cbn.
  rewrite Ho, Hh. cbn. rewrite Hty. cbn. rewrite Hs. cbn.
  rewrite Hh. cbn. rewrite Hc. cbn.
  destruct (mc_modules c !! (moduleName cmd, destination cmd)) as [m'|] eqn:Hk; cbn.
  - destruct (inst_supportsMethod m' (commandName cmd)) eqn:Hi; simplify_eq/=.
    rewrite insert_id by done. by rewrite <- app_assoc.
  - rewrite Ho, Hh. cbn. rewrite Hty. cbn.
    destruct (reg_resolve registry ty (moduleName cmd) (destination cmd))
      as [cls|]; simplify_eq/=.
    destruct (inst_supportsMethod (cls_new cls) (commandName cmd)) eqn:Hi;
      simplify_eq/=.
    by rewrite <- app_assoc.
Qed.

Lemma handleCommand_forward w self h ty c cmd :
  live w self h ty c ->
  class_supports registry ty cmd = true ->
  handles_locally registry ty c cmd = None ->
  handleCommand registry self cmd w =
  (proto_forwardCommand (constructor h) cmd,
   {| heap := <[_moduleCache h := OModuleCache (cache_after registry ty c cmd)]> (heap w);
      next := next w;
      effects := (effects w ++ [LogTrace (received_message cmd);
                                Forward self cmd])%list |}).
Proof.
  intros Hl Hs Hm. pose proof Hl as [Hh Hty Hc Ho _]. unfold class_supports in Hs.
  assert (self <> _moduleCache h) as Hne by (intros E; rewrite <- E in Hc; congruence).
  unfold handles_locally, local_module in Hm. unfold cache_after.
  unfold_handler. run. rewrite Hh. cbn. rewrite Hc. cbn.
  rewrite Ho, Hh. cbn. rewrite Hty. cbn. rewrite Hs. cbn.
  rewrite Hh. cbn. rewrite Hc. cbn.
  destruct (mc_modules c !! (moduleName cmd, destination cmd)) as [m'|] eqn:Hk; cbn.
  - destruct (inst_supportsMethod m' (commandName cmd)) eqn:Hi; simplify_eq/=.
    rewrite Hh. cbn. rewrite insert_id by done. by rewrite <- app_assoc.
  - rewrite Ho, Hh. cbn. rewrite Hty. cbn.
    destruct (reg_resolve registry ty (moduleName cmd) (destination cmd))
      as [cls|]; simplify_eq/=.
    + destruct (inst_supportsMethod (cls_new cls) (commandName cmd)) eqn:Hi;
        simplify_eq/=.
      rewrite lookup_insert_ne by done. rewrite Hh. cbn. by rewrite <- app_assoc.
    + rewrite Hh. cbn. rewrite insert_id by done. by rewrite <- app_assoc.
Qed.

End HandleCommand.

(** ** Frame: the handler object stays as the constructor left it *)

Section Frame.

Context (registry : ModuleRegistry) (self : ref) (h : MessageHandler).

Lemma preserves_ret {A} (a : A) : preserves self h (mret a).
Proof. by intros w Hw. Qed.

Lemma preserves_throw {A} e : preserves self h (@throw A e).
Proof. by intros w Hw. Qed.

Lemma preserves_lift {A} (c : Completion A) : preserves self h (lift c).
Proof. by intros w Hw. Qed.

Lemma preserves_effect e : preserves self h (effect e).
Proof. by intros w Hw. Qed.

Lemma preserves_bind {A B} (m : M A) (k : A -> M B) :
  preserves self h m -> (forall a, preserves self h (k a)) ->
  preserves self h (m ≫= k).
Proof.
  intros Hm Hk w Hw. unfold mbind, M_bind.
  specialize (Hm w Hw). destruct (m w) as [[a|e] w']; cbn in *; [|done].
  by apply Hk.
Qed.

Lemma preserves_getHandler r : preserves self h (getHandler r).
Proof. intros w Hw. unfold getHandler. by paths. Qed.

Lemma preserves_sequence_ (ms : list (M unit)) :
  Forall (preserves self h) ms -> preserves self h (sequence_ ms).
Proof.
  induction 1 as [|m ms Hm _ IH]; cbn.
  - apply preserves_ret.
  - apply preserves_bind; [done|]. by intros _.
Qed.

Lemma preserves_getAllModuleClasses c mn d :
  preserves self h (ModuleCache_getAllModuleClasses registry c mn d).
Proof. intros w Hw. unfold_handler. run. by paths. Qed.

Lemma preserves_getModuleInstance c mn d :
  preserves self h (ModuleCache_getModuleInstance registry c mn d).
Proof.
  intros w Hw. unfold_handler. run. paths.
  all: rewrite lookup_insert_ne; [done|congruence].
Qed.

Lemma preserves_store r o : r <> self -> preserves self h (store r o).
Proof. intros Hne w Hw. run. by rewrite lookup_insert_ne. Qed.

Lemma preserves_ModuleCache_destroy c : preserves self h (ModuleCache_destroy c).
Proof.
  intros w Hw. unfold ModuleCache_destroy. rewrite run_bind.
  unfold getModuleCache.
  destruct (heap w !! c) as [[]|] eqn:Hc; try done.
  assert (c <> self) as Hne by congruence.
  clear Hc. revert w Hw. apply preserves_bind; [apply preserves_effect|intros _].
  apply preserves_bind; [|intros _; by apply preserves_store].
  apply preserves_sequence_, Forall_fmap, Forall_forall.
  intros kv _. apply preserves_effect.
Qed.

Lemma preserves_EventsDispatcher_destroy d :
  preserves self h (EventsDispatcher_destroy d).
Proof.
  intros w Hw. unfold EventsDispatcher_destroy. rewrite run_bind.
  unfold getEventsDispatcher.
  destruct (heap w !! d) as [[]|] eqn:Hd; try done.
  assert (d <> self) as Hne by congruence.
  clear Hd. revert w Hw. apply preserves_bind; [apply preserves_effect|intros _].
  by apply preserves_store.
Qed.

Create HintDb frame.

#[local] Hint Resolve preserves_ret preserves_throw preserves_lift preserves_effect
  preserves_getHandler preserves_getAllModuleClasses preserves_getModuleInstance
  preserves_ModuleCache_destroy preserves_EventsDispatcher_destroy : frame.

(** Walks a method body: one bind at a time, splitting on its branches. *)
Ltac frame :=
  repeat first
    [ solve [eauto with frame]
    | apply preserves_bind; [|intros ?]
    | case_match ].

Lemma preserves_supportsCommand mn cn d :
  preserves self h (supportsCommand registry self mn cn d).
Proof. unfold supportsCommand, getAllModuleClasses. frame. Qed.

Lemma preserves_forwardCommand cmd : preserves self h (forwardCommand self cmd).
Proof. unfold forwardCommand. frame. Qed.

Lemma preserves_handleCommand cmd :
  preserves self h (handleCommand registry self cmd).
Proof.
  pose proof preserves_supportsCommand. pose proof preserves_forwardCommand.
  unfold handleCommand, logger_trace. frame.
Qed.

Lemma preserves_emitEvent n d o : preserves self h (emitEvent self n d o).
Proof. unfold emitEvent, sessionId, emit. frame. Qed.

Lemma preserves_applyInitialSessionDataItems items :
  preserves self h (applyInitialSessionDataItems self items).
Proof. unfold applyInitialSessionDataItems. frame. Qed.

Lemma preserves_destroy : preserves self h (destroy self).
Proof. unfold destroy, sessionId, logger_trace, emit. frame. Qed.

Lemma perform_preserves_handler op w :
  heap w !! self = Some (OHandler h) ->
  heap (perform registry self op w) !! self = Some (OHandler h).
Proof.
  destruct op; cbn.
  - apply preserves_handleCommand.
  - apply preserves_emitEvent.
  - apply preserves_applyInitialSessionDataItems.
  - apply preserves_destroy.
Qed.

Lemma perform_all_preserves_handler ops w :
  heap w !! self = Some (OHandler h) ->
  heap (perform_all registry self ops w) !! self = Some (OHandler h).
Proof.
  revert w. induction ops as [|op ops IH]; intros w Hw; cbn; [done|].
  apply IH. by apply perform_preserves_handler.
Qed.

End Frame.

(** ** Dispatch *)

Section Dispatch.

Context (registry : ModuleRegistry).

Lemma class_supports_true ty cmd :
  class_supports registry ty cmd = true <->
  exists cls,
    cls ∈ reg_classes registry ty (moduleName cmd) (destination cmd)
    /\ cls_supportsMethod cls (commandName cmd) = true.
Proof.
  unfold class_supports. rewrite existsb_exists.
  split; intros (cls & Hin & Hs); exists cls; split; try done;
    by apply list_elem_of_In.
Qed.

Lemma handles_locally_Some ty c cmd m :
  handles_locally registry ty c cmd = Some m <->
  local_module registry ty c cmd = Some m
  /\ inst_supportsMethod m (commandName cmd) = true.
Proof.
  unfold handles_locally.
  destruct (local_module registry ty c cmd) as [m'|];
    [|split; [done|by intros [? _]]].
  destruct (inst_supportsMethod m' (commandName cmd)) eqn:E; split.
  - by intros [= ->].
  - by intros [[= ->] _].
  - done.
  - intros [[= ->] Hi]. congruence.
Qed.

Lemma handles_locally_None ty c cmd :
  handles_locally registry ty c cmd = None <->
  local_module registry ty c cmd = None
  \/ exists m, local_module registry ty c cmd = Some m
               /\ inst_supportsMethod m (commandName cmd) = false.
Proof.
  unfold handles_locally.
  destruct (local_module registry ty c cmd) as [m'|]; [|split; [by left|done]].
  destruct (inst_supportsMethod m' (commandName cmd)) eqn:E; split.
  - done.
  - intros [|(m & [= ->] & Hi)]; [done|congruence].
  - intros _. right. by exists m'.
  - done.
Qed.

(** C1. For a command that some module class resolved for (moduleName,
    destination) declares support for, [handleCommand] on a live handler
    does exactly one of two things.  Either the instance that
    [getModuleInstance] hands back exists and supports the method: then
    [module[commandName](params, destination)] is called, once, and its
    value or error is the outcome of [handleCommand], with no forwarding.
    Or there is no instance, or it does not support the method: then
    [forwardCommand(command)] is called, once, and its outcome is the
    outcome of [handleCommand], with no module call. *)
Theorem handleCommand_local_or_forward w self h ty c cmd :
  live w self h ty c ->
  (exists cls,
      cls ∈ reg_classes registry ty (moduleName cmd) (destination cmd)
      /\ cls_supportsMethod cls (commandName cmd) = true) ->
  exists res w' instance,
    handleCommand registry self cmd w = (res, w')
    /\ (ModuleCache_getModuleInstance registry (_moduleCache h)
          (moduleName cmd) (destination cmd) w).1 = Normal instance
    /\ ((exists m,
           instance = Some m
           /\ inst_supportsMethod m (commandName cmd) = true
           /\ res = inst_call m (commandName cmd) (params cmd) (destination cmd)
           /\ effects_since w w' =
                [LogTrace (received_message cmd);
                 Invoke (inst_class m) (commandName cmd) (params cmd)
                        (destination cmd)])
        \/ ((instance = None
             \/ exists m, instance = Some m
                          /\ inst_supportsMethod m (commandName cmd) = false)
            /\ res = proto_forwardCommand (constructor h) cmd
            /\ effects_since w w' =
                 [LogTrace (received_message cmd); Forward self cmd]))
    /\ invocations (effects_since w w') + forwards (effects_since w w') = 1.
Proof.
  intros Hl Hs. apply class_supports_true in Hs.
  destruct (getModuleInstance_live registry w self h ty c cmd Hl)
    as (w1 & Hget & _).
  destruct (handles_locally registry ty c cmd) as [m|] eqn:Hm.
  - rewrite (handleCommand_local registry w self h ty c cmd m Hl Hs Hm).
    apply handles_locally_Some in Hm as [Hm Hi].
    eexists _, _, _. split; [reflexivity|]. rewrite Hget. split; [done|].
    erewrite (effects_since_app w) by reflexivity.
    split; [|done]. left. by exists m.
  - rewrite (handleCommand_forward registry w self h ty c cmd Hl Hs Hm).
    apply handles_locally_None in Hm.
    eexists _, _, _. split; [reflexivity|]. rewrite Hget. split; [done|].
    erewrite (effects_since_app w) by reflexivity.
    split; [|done]. by right.
Qed.

(** C2, as the code has it.  [supportsCommand] answers true exactly when
    one of the classes [getAllModuleClasses] returns supports the command
    name.  When it answers false, [handleCommand] throws the
    UnsupportedCommandError naming module, command and destination type,
    having done nothing but log.  When it answers true, [handleCommand]
    raises no error of its own: its outcome is the outcome of the local
    module's method or of [forwardCommand], whatever that is. *)
Theorem handleCommand_unsupported_guard w self h ty c cmd :
  live w self h ty c ->
  exists supported classes,
    supportsCommand registry self (moduleName cmd) (commandName cmd)
                    (destination cmd) w = (Normal supported, w)
    /\ getAllModuleClasses registry self (moduleName cmd) (destination cmd) w =
       (Normal classes, w)
    /\ (supported = true <->
        exists cls, cls ∈ classes /\ cls_supportsMethod cls (commandName cmd) = true)
    /\ (supported = false ->
        exists w',
          handleCommand registry self cmd w =
          (Throw (UnsupportedCommandError (unsupported_message cmd)), w')
          /\ heap w' = heap w
          /\ effects_since w w' = [LogTrace (received_message cmd)])
    /\ (supported = true ->
        (handleCommand registry self cmd w).1 =
        match handles_locally registry ty c cmd with
        | Some m => inst_call m (commandName cmd) (params cmd) (destination cmd)
        | None => proto_forwardCommand (constructor h) cmd
        end).
Proof.
  intros Hl. eexists _, _.
  split; [by apply (supportsCommand_live registry w self h ty c)|].
  split; [by apply (getAllModuleClasses_live registry w self h ty c)|].
  split; [apply class_supports_true|]. split.
  - intros Hs. rewrite (handleCommand_unsupported registry w self h ty c cmd Hl Hs).
    eexists. split; [reflexivity|]. split; [done|].
    by erewrite (effects_since_app w) by reflexivity.
  - intros Hs. destruct (handles_locally registry ty c cmd) as [m|] eqn:Hm.
    + by rewrite (handleCommand_local registry w self h ty c cmd m Hl Hs Hm).
    + by rewrite (handleCommand_forward registry w self h ty c cmd Hl Hs Hm).
Qed.

(** C4, as the code has it.  Neither method is asynchronous.  The
    UnsupportedCommandError of [handleCommand] and the "Not implemented"
    error of the inherited [forwardCommand] are thrown at the caller, and
    for a supported command [handleCommand] hands back the completion of
    the module method or of [forwardCommand] as it is: a promise exactly
    when that callee returned one, and the callee's failure unchanged. *)
Theorem handleCommand_failures_as_raised w self h ty c cmd :
  live w self h ty c ->
  (class_supports registry ty cmd = false ->
   (handleCommand registry self cmd w).1 =
   Throw (UnsupportedCommandError (unsupported_message cmd)))
  /\ (proto_forwardCommand (constructor h) = proto_forwardCommand MessageHandlerBase ->
      (forwardCommand self cmd w).1 = Throw (Error "Not implemented"))
  /\ (forwardCommand self cmd w).1 = proto_forwardCommand (constructor h) cmd
  /\ (class_supports registry ty cmd = true ->
      let callee :=
        match handles_locally registry ty c cmd with
        | Some m => inst_call m (commandName cmd) (params cmd) (destination cmd)
        | None => proto_forwardCommand (constructor h) cmd
        end in
      (handleCommand registry self cmd w).1 = callee
      /\ (returns_promise (handleCommand registry self cmd w).1
          <-> returns_promise callee)
      /\ (forall e, fails_with (handleCommand registry self cmd w).1 e
                    <-> fails_with callee e)).
Proof.
  intros Hl. pose proof Hl as [Hh _ _ _ _].
  assert ((forwardCommand self cmd w).1 = proto_forwardCommand (constructor h) cmd)
    as Hf by (unfold forwardCommand; run; by rewrite Hh).
  split; [|split; [|split]].
  - intros Hs. by rewrite (handleCommand_unsupported registry w self h ty c cmd Hl Hs).
  - intros Hb. by rewrite Hf, Hb.
  - done.
  - intros Hs callee.
    assert ((handleCommand registry self cmd w).1 = callee) as ->; [|done].
    subst callee. destruct (handles_locally registry ty c cmd) as [m|] eqn:Hm.
    + by rewrite (handleCommand_local registry w self h ty c cmd m Hl Hs Hm).
    + by rewrite (handleCommand_forward registry w self h ty c cmd Hl Hs Hm).
Qed.

End Dispatch.

(** ** Events *)

(** C3. On a constructed handler [emitEvent(name, data, options)] returns
    normally and touches nothing in the heap.  It calls [emit] with
    "message-handler-event" and the envelope [{ name, data,
    isProtocolEvent, sessionId }] exactly once, [sessionId] being the
    handler's own and [isProtocolEvent] false when [options] or the flag
    is left out; after that it calls [emit(name, data)] if and only if the
    event is not a protocol event, and nothing else. *)
Theorem emitEvent_emits_one_envelope w self h name data
    (options : option EmitEventOptions) :
  heap w !! self = Some (OHandler h) ->
  let isProtocol := default false (options ≫= isProtocolEvent) in
  let envelope :=
    Emit self "message-handler-event"
         (ArgEnvelope {| ev_name := name; ev_data := data;
                         ev_isProtocolEvent := isProtocol;
                         ev_sessionId := _sessionId h |}) in
  let bare := Emit self name (ArgData data) in
  exists w',
    emitEvent self name data options w = (Normal tt, w')
    /\ heap w' = heap w
    /\ effects w' = (effects w ++ envelope :: (if isProtocol then [] else [bare]))%list
    /\ length (List.filter is_envelope_emit (effects_since w w')) = 1
    /\ (In bare (effects_since w w') <-> isProtocol = false).
Proof.
  intros Hh isProtocol envelope bare.
  unfold emitEvent, sessionId. run. rewrite Hh. cbn.
  assert (default false (isProtocolEvent (default {| isProtocolEvent := None |} options))
          = isProtocol) as ->.
  { subst isProtocol. by destruct options as [[[]]|]. }
  destruct isProtocol; cbn; eexists; (split; [reflexivity|]); cbn;
    (split; [reflexivity|]); unfold effects_since; cbn.
  - split; [reflexivity|]. rewrite drop_app_length. cbn. split; [reflexivity|].
    split; [|done]. intros [Hx|[]]. discriminate Hx.
  - rewrite <- app_assoc. cbn. split; [reflexivity|]. rewrite drop_app_length. cbn.
    split; [reflexivity|]. split; [done|]. intros _. right. by left.
Qed.

(** When the event is itself named "message-handler-event" and is not a
    protocol event, the bare re-emission goes out under that name as well,
    carrying [data] instead of an envelope. *)
Lemma emitEvent_bare_name_clash w self h data :
  heap w !! self = Some (OHandler h) ->
  emissions "message-handler-event"
            (effects_since w (emitEvent self "message-handler-event" data None w).2)
  = 2.
Proof.
  intros Hh. unfold emitEvent, sessionId. run. rewrite Hh. cbn.
  unfold effects_since. cbn. rewrite <- app_assoc. by rewrite drop_app_length.
Qed.

(** ** Destruction *)

Lemma destroy_live w self h ty c :
  live w self h ty c ->
  exists w' d,
    destroy self w = (Normal tt, w')
    /\ live w' self h ty {| mc_messageHandler := self; mc_modules := ∅ |}
    /\ heap w !! _eventsDispatcher h = Some (OEventsDispatcher d)
    /\ heap w' =
       <[_moduleCache h :=
           OModuleCache {| mc_messageHandler := self; mc_modules := ∅ |}]>
         (<[_eventsDispatcher h :=
              OEventsDispatcher {| ed_messageHandler := ed_messageHandler d;
                                   ed_listeners := [] |}]> (heap w))
    /\ effects w' =
       (effects w ++
        [LogTrace (destroyed_message ty (_sessionId h));
         DestroyEventsDispatcher (_eventsDispatcher h);
         DestroyModuleCache (_moduleCache h)] ++
        ((fun kv => DestroyModule (inst_class kv.2)) <$> map_to_list (mc_modules c)) ++
        [Emit self "message-handler-destroyed" (ArgHandler self)])%list.
Proof.
  intros [Hh Hty Hc Ho [d Hd]].
  assert (_eventsDispatcher h <> _moduleCache h) as Hne1 by congruence.
  assert (_eventsDispatcher h <> self) as Hne2 by congruence.
  assert (_moduleCache h <> self) as Hne3 by congruence.
  unfold destroy, sessionId, EventsDispatcher_destroy, ModuleCache_destroy.
  rewrite run_bind. unfold getHandler at 1. rewrite Hh.
  rewrite run_bind. unfold lift at 1. rewrite Hty.
  rewrite run_bind, run_bind. unfold getHandler at 1. rewrite Hh. cbn.
  rewrite run_bind. cbn.
  rewrite run_bind, run_bind. unfold getEventsDispatcher at 1. cbn. rewrite Hd.
  rewrite run_bind. cbn.
  rewrite run_bind, run_bind. unfold getModuleCache at 1. cbn.
  rewrite lookup_insert_ne by done. rewrite Hc.
  rewrite run_bind. cbn. rewrite run_bind.
  rewrite sequence_effects. cbn.
  eexists _, d. split; [reflexivity|]. split; [|split; [done|split]].
  - split; cbn.
    + rewrite lookup_insert_ne by done. by rewrite lookup_insert_ne.
    + done.
    + by rewrite lookup_insert_eq, Ho.
    + done.
    + exists {| ed_messageHandler := ed_messageHandler d; ed_listeners := [] |}.
      rewrite lookup_insert_ne by done. by rewrite lookup_insert_eq.
  - cbn. by rewrite Ho.
  - cbn. by rewrite <- !app_assoc.
Qed.

Lemma destroy_emissions (pre : list Effect)
    (mods : list (string * CommandDestination * ModuleInstance)) self :
  emissions "message-handler-destroyed" pre = 0 ->
  emissions "message-handler-destroyed"
    (pre ++ ((fun kv => DestroyModule (inst_class kv.2)) <$> mods) ++
     [Emit self "message-handler-destroyed" (ArgHandler self)]) = 1.
Proof.
  intros Hpre. rewrite !emissions_app, Hpre, emissions_DestroyModule. done.
Qed.

(** C5, as the code has it.  Two [destroy()] calls in a row on a live
    handler raise no error.  Each call logs its line, tears down the
    EventsDispatcher (its listeners are cleared), tears down the
    ModuleCache (the first call destroys every cached module and empties
    the cache, the second finds it empty) and then emits
    "message-handler-destroyed" with the handler as payload; so the
    notification goes out once per call, twice in total, and the second
    call leaves the heap as the first one left it. *)
Theorem destroy_twice_notifies_twice w self h ty c :
  live w self h ty c ->
  exists w1 w2,
    destroy self w = (Normal tt, w1)
    /\ destroy self w1 = (Normal tt, w2)
    /\ (destroy self ;; destroy self) w = (Normal tt, w2)
    /\ emissions "message-handler-destroyed" (effects_since w w1) = 1
    /\ emissions "message-handler-destroyed" (effects_since w1 w2) = 1
    /\ emissions "message-handler-destroyed" (effects_since w w2) = 2
    /\ heap w2 = heap w1
    /\ effects_since w w1 =
         LogTrace (destroyed_message ty (_sessionId h))
         :: DestroyEventsDispatcher (_eventsDispatcher h)
         :: DestroyModuleCache (_moduleCache h)
         :: ((fun kv => DestroyModule (inst_class kv.2))
               <$> map_to_list (mc_modules c))
         ++ [Emit self "message-handler-destroyed" (ArgHandler self)]
    /\ effects_since w1 w2 =
         [LogTrace (destroyed_message ty (_sessionId h));
          DestroyEventsDispatcher (_eventsDispatcher h);
          DestroyModuleCache (_moduleCache h);
          Emit self "message-handler-destroyed" (ArgHandler self)]
    /\ heap w1 !! _moduleCache h =
         Some (OModuleCache {| mc_messageHandler := self; mc_modules := ∅ |})
    /\ (exists d,
          heap w !! _eventsDispatcher h = Some (OEventsDispatcher d)
          /\ heap w1 !! _eventsDispatcher h =
               Some (OEventsDispatcher {| ed_messageHandler := ed_messageHandler d;
                                          ed_listeners := [] |})).
Proof.
  intros Hl.
  destruct (destroy_live w self h ty c Hl) as (w1 & d1 & Hr1 & Hl1 & Hd1 & Hh1 & He1).
  destruct (destroy_live w1 self h ty _ Hl1) as (w2 & d2 & Hr2 & Hl2 & Hd2 & Hh2 & He2).
  cbn in He2. rewrite map_to_list_empty in He2. cbn in He2.
  assert (d2 = {| ed_messageHandler := ed_messageHandler d1;
                  ed_listeners := [] |}) as Hd.
  { pose proof Hd2 as Hd2'. rewrite Hh1 in Hd2'.
    destruct (decide (_moduleCache h = _eventsDispatcher h)) as [E|Hne].
    - rewrite E, lookup_insert_eq in Hd2'. discriminate.
    - rewrite lookup_insert_ne, lookup_insert_eq in Hd2' by done.
      by simplify_eq. }
  exists w1, w2. split; [done|]. split; [done|].
  split; [by rewrite run_bind, Hr1|].
  assert (emissions "message-handler-destroyed" (effects_since w w1) = 1) as E1.
  { erewrite (effects_since_app w) by exact He1. by apply destroy_emissions. }
  assert (emissions "message-handler-destroyed" (effects_since w1 w2) = 1) as E2.
  { by erewrite (effects_since_app w1) by exact He2. }
  split; [done|]. split; [done|]. split; [|split; [|split; [|split; [|split]]]].
  - erewrite (effects_since_app w w2).
    2:{ rewrite He2, He1, <- app_assoc. reflexivity. }
    rewrite emissions_app.
    erewrite (effects_since_app w) in E1 by exact He1.
    erewrite (effects_since_app w1) in E2 by exact He2.
    by rewrite E1, E2.
  - rewrite Hh2. destruct Hl1 as [_ _ Hc1 _ _].
    rewrite (insert_id (heap w1) (_eventsDispatcher h)).
    + by rewrite insert_id.
    + subst d2. exact Hd2.
  - by erewrite (effects_since_app w) by exact He1.
  - by erewrite (effects_since_app w1) by exact He2.
  - by destruct Hl1.
  - exists d1. split; [done|]. by subst d2.
Qed.

(** ** Forwarding *)

(** C6, as the code has it.  On a handler whose class inherits the base
    [forwardCommand], forwarding any command fails: the call throws
    [new Error("Not implemented")] at the caller, a plain Error, and never
    returns a value; nothing in the heap changes. *)
Theorem forwardCommand_base_not_implemented w self h cmd :
  heap w !! self = Some (OHandler h) ->
  proto_forwardCommand (constructor h) = proto_forwardCommand MessageHandlerBase ->
  exists w',
    forwardCommand self cmd w = (Throw (Error "Not implemented"), w')
    /\ is_Normal (forwardCommand self cmd w).1 = false
    /\ heap w' = heap w
    /\ effects_since w w' = [Forward self cmd].
Proof.
  intros Hh Hb. unfold forwardCommand. run. rewrite Hh. cbn. rewrite Hb. cbn.
  eexists. split; [reflexivity|]. split; [done|]. split; [done|].
  by erewrite (effects_since_app w) by reflexivity.
Qed.

(** ** What [handleCommand] leaves untouched *)

Lemma handleCommand_heap registry self cmd w h :
  heap w !! self = Some (OHandler h) ->
  let w' := (handleCommand registry self cmd w).2 in
  (forall r,
      r <> _moduleCache h \/ (forall c, heap w !! r <> Some (OModuleCache c)) ->
      heap w' !! r = heap w !! r)
  /\ (forall c, heap w !! _moduleCache h = Some (OModuleCache c) ->
        exists c', heap w' !! _moduleCache h = Some (OModuleCache c')
                   /\ mc_messageHandler c' = mc_messageHandler c
                   /\ mc_modules c ⊆ mc_modules c')
  /\ next w' = next w.
Proof.
  intros Hh. unfold_handler. run. rewrite Hh. cbn.
  paths.
  all: split;
    [intros r [Hr|Hr];
     [by rewrite ?lookup_insert_ne by done
     |destruct (decide (r = _moduleCache h)) as [->|Hne];
      [by edestruct Hr|by rewrite ?lookup_insert_ne by done]]|].
  all: split; [|done].
  all: intros ? ?; simplify_eq; rewrite ?lookup_insert_eq;
    eexists; split; [done|]; split; [done|].
  all: try done.
  all: by apply insert_subseteq.
Qed.

(** C7. Whatever path [handleCommand] takes and however it ends (a module's
    value, a module's error, the UnsupportedCommandError, a failure of the
    forwarding, or an error of the runtime), the handler object is left
    exactly as it was: [_sessionId], [_contextId], [_context] and the
    references in [_moduleCache] and [_eventsDispatcher] are those the
    constructor stored.  The EventsDispatcher object and every other object
    keep their contents; the ModuleCache object keeps its owner and every
    cached instance, and can only have gained the instance created for the
    command. *)
Theorem handleCommand_leaves_handler_unchanged registry w self h cmd :
  heap w !! self = Some (OHandler h) ->
  let w' := (handleCommand registry self cmd w).2 in
  heap w' !! self = Some (OHandler h)
  /\ sessionId self w' = (Normal (_sessionId h), w')
  /\ contextId self w' = (Normal (_contextId h), w')
  /\ eventsDispatcher self w' = (Normal (_eventsDispatcher h), w')
  /\ (forall d, heap w !! _eventsDispatcher h = Some (OEventsDispatcher d) ->
        heap w' !! _eventsDispatcher h = Some (OEventsDispatcher d))
  /\ (forall r, r <> _moduleCache h -> heap w' !! r = heap w !! r)
  /\ (forall c, heap w !! _moduleCache h = Some (OModuleCache c) ->
        exists c', heap w' !! _moduleCache h = Some (OModuleCache c')
                   /\ mc_messageHandler c' = mc_messageHandler c
                   /\ mc_modules c ⊆ mc_modules c').
Proof.
  intros Hh w'.
  pose proof (preserves_handleCommand registry self h cmd w Hh) as Hself.
  destruct (handleCommand_heap registry self cmd w h Hh) as (Hother & Hcache & _).
  fold w' in Hself, Hother, Hcache.
  split; [done|].
  split; [unfold sessionId; run; by rewrite Hself|].
  split; [unfold contextId; run; by rewrite Hself|].
  split; [unfold eventsDispatcher; run; by rewrite Hself|].
  split; [|split; [|done]].
  - intros d Hd. rewrite Hother; [done|]. right. intros c. by rewrite Hd.
  - intros r Hr. apply Hother. by left.
Qed.

(** ** Identity *)

(** C10. Once the constructor of a class that provides [type] has
    returned, [sessionId] is the string it was given and [contextId] is
    what the class's [getIdFromContext] computed for the context, then and
    after any sequence of [handleCommand], [emitEvent],
    [applyInitialSessionDataItems] and [destroy] calls, whether they return
    or throw; [name] is then always [sessionId], the class's [type] and
    [contextId] joined by "-". *)
Theorem identity_fixed_at_construction registry cls sid ctx w0 self w1 ty :
  new_MessageHandler cls sid ctx w0 = (Normal self, w1) ->
  static_type cls = Normal ty ->
  exists cid,
    static_getIdFromContext cls ctx = Normal cid
    /\ forall ops,
        let w := perform_all registry self ops w1 in
        sessionId self w = (Normal sid, w)
        /\ contextId self w = (Normal cid, w)
        /\ name self w = (Normal (String.concat "-" [sid; ty; cid]), w)
        /\ String.concat "-" [sid; ty; cid] = sid +:+ "-" +:+ ty +:+ "-" +:+ cid.
Proof.
  intros Hnew Hty.
  destruct (new_MessageHandler_live cls sid ctx w0 self w1 ty Hnew Hty)
    as (h & c & [Hh _ _ _ _] & Hcls & Hsid & _ & Hcid & _).
  exists (_contextId h). split; [done|]. intros ops w.
  pose proof (perform_all_preserves_handler registry self h ops w1 Hh) as Hw.
  fold w in Hw.
  unfold name, sessionId, contextId. run. rewrite !Hw. cbn.
  rewrite Hcls, Hty. cbn. rewrite ?Hw. cbn. by rewrite Hsid.
Qed.

(** ** ContextDescriptor *)

(** C9. The type of a ContextDescriptor is one of exactly two values, the
    two members of the enum, [All] and the type of one specific context
    ([TopBrowsingContext], with the id of that context); they are distinct
    and so are their strings.  A descriptor of type [All] matches every
    context, with or without an id; a descriptor of the specific type with
    id [i] matches the context whose id is [i] and no other. *)
Theorem ContextDescriptor_two_variants :
  (forall t : ContextDescriptorType, t = All \/ t = TopBrowsingContext)
  /\ All <> TopBrowsingContext
  /\ ContextDescriptorType_members.*2
     = ContextDescriptorType_value <$> [All; TopBrowsingContext]
  /\ (forall t, ContextDescriptorType_of_string (ContextDescriptorType_value t) = Some t)
  /\ (forall id ctx, matchContext {| cd_type := All; cd_id := id |} ctx = true)
  /\ (forall i ctx,
        matchContext {| cd_type := TopBrowsingContext; cd_id := Some i |} ctx
        = bool_decide (ctx = i))
  /\ (forall i,
        exists! ctx,
          matchContext {| cd_type := TopBrowsingContext; cd_id := Some i |} ctx = true).
Proof.
  assert (forall i ctx,
             matchContext {| cd_type := TopBrowsingContext; cd_id := Some i |} ctx
             = bool_decide (ctx = i)) as Hm.
  { intros i ctx. unfold matchContext. cbn.
    apply bool_decide_ext. split; [by intros [= ->]|by intros ->]. }
  split; [by intros []; auto|]. split; [done|]. split; [done|].
  split; [by intros []|]. split; [done|]. split; [done|].
  intros i. exists i. split.
  - rewrite Hm. by apply bool_decide_eq_true.
  - intros ctx. rewrite Hm. by intros ->%bool_decide_eq_true.
Qed.

(** ** Retrying an aborted forward *)

(** C8. When the first attempt to send a forwarded command is aborted by
    the transport: with [retryOnAbort] the next hop is resolved a second
    time and the command is sent exactly once more, and the outcome is the
    answer to that second attempt (so the command succeeds if the second
    attempt does) or, if the retry is aborted too, the transport error;
    without [retryOnAbort] nothing is sent again and the transport error is
    what the caller gets. *)
Theorem forwardCommand_retries_once (l : Transport.Link) (c : Command) :
  Transport.outcome l (length (Transport.attempts l)) = Transport.Aborted ->
  let res := (Transport.forwardCommand c l).1 in
  let l' := (Transport.forwardCommand c l).2 in
  if retryOnAbort_or_default c then
    Transport.attempts l' =
      (Transport.attempts l ++
       [(Transport.resolutions l, c); (S (Transport.resolutions l), c)])%list
    /\ Transport.resolutions l' = 2 + Transport.resolutions l
    /\ res = match Transport.outcome l (S (length (Transport.attempts l))) with
             | Transport.Answered r => r
             | Transport.Aborted => Throw Transport.TransportAbortError
             end
  else
    Transport.attempts l' =
      (Transport.attempts l ++ [(Transport.resolutions l, c)])%list
    /\ Transport.resolutions l' = 1 + Transport.resolutions l
    /\ res = Throw Transport.TransportAbortError.
Proof.
  intros Hfirst. unfold Transport.forwardCommand. cbn. rewrite Hfirst.
  destruct (retryOnAbort_or_default c); cbn; [|done].
  rewrite length_app. cbn. rewrite Nat.add_1_r.
  destruct (Transport.outcome l (S (length (Transport.attempts l))));
    cbn; by rewrite <- app_assoc.
Qed.

(** ** The fixtures at work *)

Lemma leafWorld_live :
  live Fixture.leafWorld 0 Fixture.leafHandler "Leaf"
       {| mc_messageHandler := 0; mc_modules := ∅ |}.
Proof.
  split; [vm_compute; reflexivity ..|].
  eexists. vm_compute. reflexivity.
Defined.

Lemma rootWorld_live :
  live Fixture.rootWorld 0 Fixture.rootHandler "Root"
       {| mc_messageHandler := 0; mc_modules := ∅ |}.
Proof.
  split; [vm_compute; reflexivity ..|].
  eexists. vm_compute. reflexivity.
Defined.

(** The leaf handles [nav.go] in its own module. *)
Lemma handleCommand_local_or_forward_witness :
  exists res w' instance,
    handleCommand Fixture.leafRegistry 0 Fixture.go Fixture.leafWorld = (res, w')
    /\ (ModuleCache_getModuleInstance Fixture.leafRegistry 1 "nav"
          Fixture.leafDestination Fixture.leafWorld).1 = Normal instance
    /\ ((exists m,
           instance = Some m
           /\ inst_supportsMethod m "go" = true
           /\ res = inst_call m "go" (params Fixture.go) Fixture.leafDestination
           /\ effects_since Fixture.leafWorld w' =
                [LogTrace (received_message Fixture.go);
                 Invoke (inst_class m) "go" (params Fixture.go)
                        Fixture.leafDestination])
        \/ ((instance = None
             \/ exists m, instance = Some m /\ inst_supportsMethod m "go" = false)
            /\ res = proto_forwardCommand Fixture.Leaf Fixture.go
            /\ effects_since Fixture.leafWorld w' =
                 [LogTrace (received_message Fixture.go); Forward 0 Fixture.go]))
    /\ invocations (effects_since Fixture.leafWorld w')
       + forwards (effects_since Fixture.leafWorld w') = 1.
Proof.
  apply (handleCommand_local_or_forward Fixture.leafRegistry Fixture.leafWorld 0
           Fixture.leafHandler "Leaf" _ Fixture.go leafWorld_live).
  exists Fixture.navClass. split; [|reflexivity].
  vm_compute. apply list_elem_of_here.
Defined.

(** On the leaf, [nav.stop] is turned down and [nav.go] is answered. *)
Lemma handleCommand_unsupported_guard_witness :
  (handleCommand Fixture.leafRegistry 0 Fixture.stop Fixture.leafWorld).1
  = Throw (UnsupportedCommandError "nav.stop not supported for destination Leaf")
  /\ (handleCommand Fixture.leafRegistry 0 Fixture.go Fixture.leafWorld).1
     = Normal (VObj [("ok", VBool true)]).
Proof.
  destruct (handleCommand_unsupported_guard Fixture.leafRegistry Fixture.leafWorld 0
              Fixture.leafHandler "Leaf" _ Fixture.stop leafWorld_live)
    as (b1 & cl1 & Hs1 & _ & _ & Hno & _).
  destruct (handleCommand_unsupported_guard Fixture.leafRegistry Fixture.leafWorld 0
              Fixture.leafHandler "Leaf" _ Fixture.go leafWorld_live)
    as (b2 & cl2 & Hs2 & _ & _ & _ & Hyes).
  split.
  - destruct Hno as (w' & -> & _); [|reflexivity].
    vm_compute in Hs1. by injection Hs1 as <-.
  - rewrite Hyes; [reflexivity|].
    vm_compute in Hs2. by injection Hs2 as <-.
Defined.

(** The root's next hop rejects [nav.go] as unsupported although a class
    listed for the root declares it. *)
Lemma UnsupportedCommandError_iff_unsupported_counterexample :
  ~ UnsupportedCommandError_iff_unsupported
      Fixture.rootRegistry 0 Fixture.go Fixture.rootWorld.
Proof.
  intros [Hfail _].
  assert ((supportsCommand Fixture.rootRegistry 0 "nav" "go"
             Fixture.leafDestination Fixture.rootWorld).1 = Normal false) as Hs.
  { apply Hfail. right. vm_compute. reflexivity. }
  vm_compute in Hs. discriminate Hs.
Qed.

Lemma emitEvent_emits_one_envelope_witness :
  exists w',
    emitEvent 0 "nav.navigated" (VObj [("url", VStr "https://example.com")])
              None Fixture.leafWorld = (Normal tt, w')
    /\ effects_since Fixture.leafWorld w' =
       [Emit 0 "message-handler-event"
             (ArgEnvelope
                {| ev_name := "nav.navigated";
                   ev_data := VObj [("url", VStr "https://example.com")];
                   ev_isProtocolEvent := false;
                   ev_sessionId := "S1" |});
        Emit 0 "nav.navigated"
             (ArgData (VObj [("url", VStr "https://example.com")]))].
Proof.
  destruct (emitEvent_emits_one_envelope Fixture.leafWorld 0 Fixture.leafHandler
              "nav.navigated" (VObj [("url", VStr "https://example.com")]) None)
    as (w' & Hrun & _ & He & _).
  { vm_compute. reflexivity. }
  exists w'. split; [exact Hrun|].
  by rewrite (effects_since_app _ _ _ He).
Defined.

(** [nav.stop] on the leaf is thrown, not returned as a promise. *)
Lemma failures_are_rejections_counterexample :
  ~ failures_are_rejections Fixture.leafRegistry 0 Fixture.stop Fixture.leafWorld.
Proof. intros [H _]. vm_compute in H. exact H. Qed.

Lemma handleCommand_failures_as_raised_witness :
  (handleCommand Fixture.leafRegistry 0 Fixture.stop Fixture.leafWorld).1
  = Throw (UnsupportedCommandError "nav.stop not supported for destination Leaf")
  /\ (forwardCommand 0 Fixture.stop Fixture.leafWorld).1
     = Throw (Error "Not implemented").
Proof.
  destruct (handleCommand_failures_as_raised Fixture.leafRegistry Fixture.leafWorld
              0 Fixture.leafHandler "Leaf" _ Fixture.stop leafWorld_live)
    as (Hu & Hb & _).
  split; [apply Hu|apply Hb]; reflexivity.
Defined.

(** Destroying the leaf twice notifies twice. *)
Lemma destroy_notifies_once_counterexample :
  ~ destroy_notifies_once 0 Fixture.leafWorld.
Proof. intros [_ H]. vm_compute in H. discriminate H. Qed.

Lemma destroy_twice_notifies_twice_witness :
  exists w1 w2,
    destroy 0 Fixture.leafWorld = (Normal tt, w1)
    /\ destroy 0 w1 = (Normal tt, w2)
    /\ (destroy 0 ;; destroy 0) Fixture.leafWorld = (Normal tt, w2)
    /\ emissions "message-handler-destroyed" (effects_since Fixture.leafWorld w1) = 1
    /\ emissions "message-handler-destroyed" (effects_since w1 w2) = 1
    /\ emissions "message-handler-destroyed" (effects_since Fixture.leafWorld w2) = 2
    /\ heap w2 = heap w1.
Proof.
  destruct (destroy_twice_notifies_twice Fixture.leafWorld 0 Fixture.leafHandler
              "Leaf" _ leafWorld_live)
    as (w1 & w2 & H1 & H2 & H3 & H4 & H5 & H6 & H7 & _).
  exists w1, w2. repeat (split; [assumption|]). assumption.
Defined.

(** The leaf inherits [forwardCommand]: a plain Error, no
    DestinationUnreachableError. *)
Lemma forwardCommand_unreachable_counterexample :
  ~ forwardCommand_unreachable 0 Fixture.go Fixture.leafWorld.
Proof.
  intros (msg & [H|H]); vm_compute in H; discriminate H.
Qed.

Lemma forwardCommand_base_not_implemented_witness :
  exists w',
    forwardCommand 0 Fixture.go Fixture.leafWorld
    = (Throw (Error "Not implemented"), w')
    /\ is_Normal (forwardCommand 0 Fixture.go Fixture.leafWorld).1 = false
    /\ heap w' = heap Fixture.leafWorld
    /\ effects_since Fixture.leafWorld w' = [Forward 0 Fixture.go].
Proof.
  apply (forwardCommand_base_not_implemented Fixture.leafWorld 0
           Fixture.leafHandler Fixture.go).
  - vm_compute. reflexivity.
  - reflexivity.
Defined.

Lemma handleCommand_leaves_handler_unchanged_witness :
  heap (handleCommand Fixture.leafRegistry 0 Fixture.go Fixture.leafWorld).2 !! 0
  = Some (OHandler Fixture.leafHandler)
  /\ heap (handleCommand Fixture.leafRegistry 0 Fixture.stop Fixture.leafWorld).2 !! 0
     = Some (OHandler Fixture.leafHandler).
Proof.
  assert (heap Fixture.leafWorld !! 0 = Some (OHandler Fixture.leafHandler))
    as Hh by (vm_compute; reflexivity).
  split.
  - exact (proj1 (handleCommand_leaves_handler_unchanged Fixture.leafRegistry
                    Fixture.leafWorld 0 Fixture.leafHandler Fixture.go Hh)).
  - exact (proj1 (handleCommand_leaves_handler_unchanged Fixture.leafRegistry
                    Fixture.leafWorld 0 Fixture.leafHandler Fixture.stop Hh)).
Defined.

Lemma forwardCommand_retries_once_witness :
  (Transport.forwardCommand Fixture.goRetrying Fixture.flakyLink).1
  = Normal (VObj [("ok", VBool true)])
  /\ length (Transport.attempts
               (Transport.forwardCommand Fixture.goRetrying Fixture.flakyLink).2) = 2
  /\ (Transport.forwardCommand Fixture.go Fixture.flakyLink).1
     = Throw Transport.TransportAbortError
  /\ length (Transport.attempts
               (Transport.forwardCommand Fixture.go Fixture.flakyLink).2) = 1.
Proof.
  pose proof (forwardCommand_retries_once Fixture.flakyLink Fixture.goRetrying
                eq_refl) as (Ha & _ & Hr).
  pose proof (forwardCommand_retries_once Fixture.flakyLink Fixture.go
                eq_refl) as (Ha' & _ & Hr').
  split; [exact Hr|]. split; [by rewrite Ha|]. split; [exact Hr'|by rewrite Ha'].
Defined.

Lemma identity_fixed_at_construction_witness :
  name 0 (perform_all Fixture.leafRegistry 0 Fixture.session Fixture.leafWorld)
  = (Normal "S1-Leaf-ctx-42",
     perform_all Fixture.leafRegistry 0 Fixture.session Fixture.leafWorld).
Proof.
  destruct (identity_fixed_at_construction Fixture.leafRegistry Fixture.Leaf "S1"
              (VStr "ctx-42") empty_world 0 Fixture.leafWorld "Leaf")
    as (cid & Hcid & Hops).
  - vm_compute. reflexivity.
  - reflexivity.
  - cbn in Hcid. injection Hcid as <-.
    destruct (Hops Fixture.session) as (_ & _ & Hname & _). exact Hname.
Defined.

(** * Further properties of the handler *)

(** ** Construction *)

(** X1. [new cls(sessionId, context)] returns exactly when the class's
    [getIdFromContext] returns for the context: the new handler then
    answers [sessionId], [contextId] and [eventsDispatcher] with the
    argument, the computed id and a new EventsDispatcher.  When
    [getIdFromContext] throws, the constructor throws the same error and no
    handler object comes to exist; this is what happens for the base class
    itself, which cannot be instantiated. *)
Theorem constructor_returns_iff_context_has_id cls sid ctx w :
  match static_getIdFromContext cls ctx with
  | Normal cid =>
      exists w',
        new_MessageHandler cls sid ctx w = (Normal (next w), w')
        /\ sessionId (next w) w' = (Normal sid, w')
        /\ contextId (next w) w' = (Normal cid, w')
        /\ eventsDispatcher (next w) w' = (Normal (S (S (next w))), w')
        /\ heap w' !! S (S (next w)) =
             Some (OEventsDispatcher {| ed_messageHandler := next w;
                                        ed_listeners := [] |})
  | Throw e =>
      (new_MessageHandler cls sid ctx w).1 = Throw e
      /\ heap (new_MessageHandler cls sid ctx w).2 !! next w = heap w !! next w
  end
  /\ (new_MessageHandler MessageHandlerBase sid ctx w).1
     = Throw (Error "Not implemented").
Proof.
  split; [|by apply new_MessageHandler_throws].
  destruct (static_getIdFromContext cls ctx) as [cid|e] eqn:Hid.
  - destruct (new_MessageHandler_returns cls sid ctx w cid Hid)
      as (w' & Hrun & Hh & _ & Hd & _).
    exists w'. split; [done|].
    unfold sessionId, contextId, eventsDispatcher. run. by rewrite Hh.
  - split; [by apply new_MessageHandler_throws|].
    unfold_handler. run. rewrite Hid. cbn. by rewrite lookup_insert_ne by lia.
Qed.

(** ** A class without [type] *)

(** X2. On a handler whose class does not provide [type] (the static getter
    of the base class throws), [destroy()] throws that error before doing
    anything: nothing is logged, neither the EventsDispatcher nor the
    ModuleCache is torn down and no "message-handler-destroyed" goes out.
    [name] and [toString()] throw the same error. *)
Theorem destroy_without_type_does_nothing w self h e :
  heap w !! self = Some (OHandler h) ->
  static_type (constructor h) = Throw e ->
  destroy self w = (Throw e, w)
  /\ name self w = (Throw e, w)
  /\ toString self w = (Throw e, w).
Proof.
  intros Hh Hty. unfold destroy, toString, name, sessionId. run.
  rewrite !Hh. cbn. rewrite Hty. cbn. rewrite ?Hh. cbn. by rewrite ?Hty.
Qed.

Lemma destroy_without_type_does_nothing_witness :
  destroy 0 Scenario.typelessWorld
  = (Throw (Error "Not implemented"), Scenario.typelessWorld)
  /\ name 0 Scenario.typelessWorld
     = (Throw (Error "Not implemented"), Scenario.typelessWorld)
  /\ toString 0 Scenario.typelessWorld
     = (Throw (Error "Not implemented"), Scenario.typelessWorld).
Proof.
  apply (destroy_without_type_does_nothing Scenario.typelessWorld 0
           Scenario.typelessHandler).
  - vm_compute. reflexivity.
  - reflexivity.
Defined.

(** ** Events, by name *)

Lemma emitEvent_run w self h name data (options : option EmitEventOptions) :
  heap w !! self = Some (OHandler h) ->
  emitEvent self name data options w =
  (Normal tt,
   {| heap := heap w; next := next w;
      effects := (effects w
                  ++ emitEvent_effects self (_sessionId h) name data options)%list |}).
Proof.
  intros Hh. unfold emitEvent_effects.
  set (isProtocol := default false (options ≫= isProtocolEvent)).
  unfold emitEvent, sessionId. run. rewrite Hh. cbn.
  assert (default false (isProtocolEvent (default {| isProtocolEvent := None |} options))
          = isProtocol) as ->
    by (subst isProtocol; by destruct options as [[[]]|]).
  destruct isProtocol; cbn; [done|].
  unfold effect. cbn. by rewrite <- app_assoc.
Qed.

(** X3. How many times [emitEvent(name, data, options)] calls [emit] under
    each event name [n]: once under "message-handler-event" for the
    envelope, and once more under [name] unless the event is a protocol
    event.  An internal event that is itself called
    "message-handler-event" (or "message-handler-destroyed") therefore
    reaches the listeners of that name as well, with [data] as payload. *)
Theorem emitEvent_emissions_by_name w self h name data
    (options : option EmitEventOptions) (n : string) :
  heap w !! self = Some (OHandler h) ->
  emissions n (effects_since w (emitEvent self name data options w).2)
  = (if decide (n = "message-handler-event") then 1 else 0)
    + (if default false (options ≫= isProtocolEvent) then 0
       else if decide (n = name) then 1 else 0).
Proof.
  intros Hh. rewrite (emitEvent_run w self h name data options Hh).
  erewrite (effects_since_app w) by reflexivity.
  unfold emitEvent_effects, emissions.
  destruct (default false (options ≫= isProtocolEvent)); cbn;
    repeat case_bool_decide; repeat case_decide; simplify_eq/=; done.
Qed.

Lemma emitEvent_emissions_by_name_witness :
  emissions "message-handler-destroyed"
    (effects_since Fixture.leafWorld
       (emitEvent 0 "message-handler-destroyed" VNull None Fixture.leafWorld).2)
  = 1
  /\ emissions "message-handler-event"
       (effects_since Fixture.leafWorld
          (emitEvent 0 "nav.navigated" VNull
                     (Some {| isProtocolEvent := Some true |}) Fixture.leafWorld).2)
     = 1.
Proof.
  assert (heap Fixture.leafWorld !! 0 = Some (OHandler Fixture.leafHandler))
    as Hh by (vm_compute; reflexivity).
  split.
  - exact (emitEvent_emissions_by_name Fixture.leafWorld 0 Fixture.leafHandler
             "message-handler-destroyed" VNull None "message-handler-destroyed" Hh).
  - exact (emitEvent_emissions_by_name Fixture.leafWorld 0 Fixture.leafHandler
             "nav.navigated" VNull (Some {| isProtocolEvent := Some true |})
             "message-handler-event" Hh).
Defined.

(** ** What a [handleCommand] call can be seen to do *)

(** X4. Whatever the handler, the heap and the command, and however the
    call ends, [handleCommand] first logs the "Received command" line and
    then does at most one more thing: one call of a module method with the
    command's name, params and destination, or one [forwardCommand] of the
    command itself.  It never calls [emit] and never tears anything
    down. *)
Theorem handleCommand_effects_shape registry self cmd w :
  exists rest,
    effects_since w (handleCommand registry self cmd w).2
    = LogTrace (received_message cmd) :: rest
    /\ (rest = []
        \/ (exists module,
              rest = [Invoke module (commandName cmd) (params cmd)
                             (destination cmd)])
        \/ rest = [Forward self cmd]).
Proof.
  unfold_handler. run. unfold effects_since.
  paths; cbn; rewrite <- ?app_assoc, drop_app_length; cbn;
    eexists; (split; [reflexivity|]); eauto.
Qed.

Section Fallback.

Context (registry : ModuleRegistry).

(** X5. Forwarding fallback.  When a class listed for the command supports
    it but the handler has no local instance that does, on a handler whose
    class inherits [forwardCommand] from the base class, [handleCommand]
    ends in the base class's [Error("Not implemented")]: the command is
    handed to [forwardCommand] once, no module is called, and the caller
    gets the error instead of a value. *)
Theorem handleCommand_falls_back_to_base_forward w self h ty c cmd :
  live w self h ty c ->
  class_supports registry ty cmd = true ->
  handles_locally registry ty c cmd = None ->
  proto_forwardCommand (constructor h) = proto_forwardCommand MessageHandlerBase ->
  (handleCommand registry self cmd w).1 = Throw (Error "Not implemented")
  /\ effects_since w (handleCommand registry self cmd w).2
     = [LogTrace (received_message cmd); Forward self cmd].
Proof.
  intros Hl Hs Hm Hb.
  rewrite (handleCommand_forward registry w self h ty c cmd Hl Hs Hm).
  cbn. rewrite Hb. split; [done|].
  by erewrite (effects_since_app w) by reflexivity.
Qed.

(** X6. [handleCommand] does not look at [retryOnAbort]: a command that is
    turned down as unsupported, or handled by a local module, has the same
    outcome, the same effects and the same heap whatever the flag says.
    Only [forwardCommand] gets to see it. *)
Theorem handleCommand_ignores_retryOnAbort w self h ty c cmd r :
  live w self h ty c ->
  class_supports registry ty cmd = false
  \/ (exists m, handles_locally registry ty c cmd = Some m) ->
  handleCommand registry self (with_retryOnAbort cmd r) w
  = handleCommand registry self cmd w.
Proof.
  intros Hl [Hs|[m Hm]].
  - rewrite (handleCommand_unsupported registry w self h ty c cmd Hl Hs).
    by rewrite (handleCommand_unsupported registry w self h ty c
                  (with_retryOnAbort cmd r) Hl Hs).
  - destruct (class_supports registry ty cmd) eqn:Hs.
    + rewrite (handleCommand_local registry w self h ty c cmd m Hl Hs Hm).
      by rewrite (handleCommand_local registry w self h ty c
                    (with_retryOnAbort cmd r) m Hl Hs Hm).
    + rewrite (handleCommand_unsupported registry w self h ty c cmd Hl Hs).
      by rewrite (handleCommand_unsupported registry w self h ty c
                    (with_retryOnAbort cmd r) Hl Hs).
Qed.

End Fallback.

Lemma handleCommand_falls_back_to_base_forward_witness :
  (handleCommand Fixture.rootRegistry 0 Fixture.go Fixture.leafWorld).1
  = Throw (Error "Not implemented")
  /\ effects_since Fixture.leafWorld
       (handleCommand Fixture.rootRegistry 0 Fixture.go Fixture.leafWorld).2
     = [LogTrace (received_message Fixture.go); Forward 0 Fixture.go].
Proof.
  apply (handleCommand_falls_back_to_base_forward Fixture.rootRegistry
           Fixture.leafWorld 0 Fixture.leafHandler "Leaf" _ Fixture.go
           leafWorld_live); reflexivity.
Defined.

Lemma handleCommand_ignores_retryOnAbort_witness :
  handleCommand Fixture.leafRegistry 0
                (with_retryOnAbort Fixture.go (Some true)) Fixture.leafWorld
  = handleCommand Fixture.leafRegistry 0 Fixture.go Fixture.leafWorld.
Proof.
  apply (handleCommand_ignores_retryOnAbort Fixture.leafRegistry
           Fixture.leafWorld 0 Fixture.leafHandler "Leaf" _ Fixture.go
           (Some true) leafWorld_live).
  right. exists Fixture.navInstance. reflexivity.
Defined.

(** ** The footprint of the operations *)

Section Footprint.

Context (registry : ModuleRegistry) (r : ref).

Lemma keeps_ret {A} (a : A) : keeps r (mret a).
Proof. by intros w. Qed.

Lemma keeps_throw {A} e : keeps r (@throw A e).
Proof. by intros w. Qed.

Lemma keeps_lift {A} (c : Completion A) : keeps r (lift c).
Proof. by intros w. Qed.

Lemma keeps_effect e : keeps r (effect e).
Proof. by intros w. Qed.

Lemma keeps_bind {A B} (m : M A) (k : A -> M B) :
  keeps r m -> (forall a, keeps r (k a)) -> keeps r (m ≫= k).
Proof.
  intros Hm Hk w. rewrite run_bind.
  specialize (Hm w). destruct (m w) as [[a|e] w']; cbn in *; [|done].
  by rewrite Hk.
Qed.

Lemma keeps_getHandler s : keeps r (getHandler s).
Proof. intros w. unfold getHandler. by paths. Qed.

Lemma keeps_store r' o : r <> r' -> keeps r (store r' o).
Proof. intros Hne w. run. by rewrite lookup_insert_ne. Qed.

Lemma keeps_sequence_ (ms : list (M unit)) :
  Forall (keeps r) ms -> keeps r (sequence_ ms).
Proof.
  induction 1 as [|m ms Hm _ IH]; cbn.
  - apply keeps_ret.
  - apply keeps_bind; [done|]. by intros _.
Qed.

Lemma keeps_ModuleCache_destroy c : r <> c -> keeps r (ModuleCache_destroy c).
Proof.
  intros Hne. unfold ModuleCache_destroy.
  apply keeps_bind; [intros w; unfold getModuleCache; by paths|intros cache].
  apply keeps_bind; [apply keeps_effect|intros _].
  apply keeps_bind; [|intros _; by apply keeps_store].
  apply keeps_sequence_, Forall_fmap, Forall_forall.
  intros kv _. apply keeps_effect.
Qed.

Lemma keeps_EventsDispatcher_destroy d :
  r <> d -> keeps r (EventsDispatcher_destroy d).
Proof.
  intros Hne. unfold EventsDispatcher_destroy.
  apply keeps_bind; [intros w; unfold getEventsDispatcher; by paths|intros disp].
  apply keeps_bind; [apply keeps_effect|intros _].
  by apply keeps_store.
Qed.

Lemma destroy_footprint self h w :
  heap w !! self = Some (OHandler h) ->
  r <> _moduleCache h -> r <> _eventsDispatcher h ->
  heap (destroy self w).2 !! r = heap w !! r.
Proof.
  intros Hh Hc Hd. unfold destroy. rewrite run_bind.
  unfold getHandler at 1. rewrite Hh. revert w Hh.
  change (forall w, heap w !! self = Some (OHandler h) ->
            heap ((ty ← lift (static_type (constructor h));
                   sid ← sessionId self;
                   logger_trace (destroyed_message ty sid) ;;
                   EventsDispatcher_destroy (_eventsDispatcher h) ;;
                   ModuleCache_destroy (_moduleCache h) ;;
                   emit self "message-handler-destroyed" (ArgHandler self)) w).2
            !! r = heap w !! r).
  intros w _. revert w. fold (keeps r
    (ty ← lift (static_type (constructor h));
     sid ← sessionId self;
     logger_trace (destroyed_message ty sid) ;;
     EventsDispatcher_destroy (_eventsDispatcher h) ;;
     ModuleCache_destroy (_moduleCache h) ;;
     emit self "message-handler-destroyed" (ArgHandler self))).
  apply keeps_bind; [apply keeps_lift|intros ty].
  apply keeps_bind.
  { unfold sessionId. apply keeps_bind; [apply keeps_getHandler|intros ?].
    apply keeps_ret. }
  intros sid.
  apply keeps_bind; [apply keeps_effect|intros _].
  apply keeps_bind; [by apply keeps_EventsDispatcher_destroy|intros _].
  apply keeps_bind; [by apply keeps_ModuleCache_destroy|intros _].
  apply keeps_effect.
Qed.

Lemma perform_footprint self h op w :
  heap w !! self = Some (OHandler h) ->
  r <> _moduleCache h -> r <> _eventsDispatcher h ->
  heap (perform registry self op w) !! r = heap w !! r.
Proof.
  intros Hh Hc Hd. destruct op; cbn.
  - apply (handleCommand_heap registry self c w h Hh). by left.
  - by rewrite (emitEvent_run w self h name0 data options Hh).
  - unfold applyInitialSessionDataItems. run. rewrite Hh. cbn. by paths.
  - by apply (destroy_footprint self h).
Qed.

Lemma perform_all_footprint self h ops w :
  heap w !! self = Some (OHandler h) ->
  r <> _moduleCache h -> r <> _eventsDispatcher h ->
  heap (perform_all registry self ops w) !! r = heap w !! r.
Proof.
  intros Hh Hc Hd. revert w Hh. unfold perform_all.
  induction ops as [|op ops IH]; intros w Hh; cbn; [done|].
  rewrite IH by (by apply perform_preserves_handler).
  by apply (perform_footprint self h).
Qed.

End Footprint.

Section Usable.

Context (registry : ModuleRegistry).

Lemma perform_live self h ty op w c :
  live w self h ty c ->
  exists c', live (perform registry self op w) self h ty c'.
Proof.
  intros Hl. pose proof Hl as [Hh Hty Hc Ho [d Hd]].
  destruct op as [cmd|n dat o|items|]; cbn.
  - destruct (handleCommand_heap registry self cmd w h Hh) as (Hother & Hcache & _).
    destruct (Hcache c Hc) as (c' & Hc' & Ho' & _).
    exists c'. split; try done.
    + by apply preserves_handleCommand.
    + congruence.
    + exists d. rewrite Hother; [done|]. right. intros ?. by rewrite Hd.
  - exists c. rewrite (emitEvent_run w self h n dat o Hh). split; cbn; eauto.
  - exists c. unfold applyInitialSessionDataItems. run. rewrite Hh. cbn.
    destruct (proto_applyInitialSessionDataItems (constructor h) items);
      split; cbn; eauto.
  - destruct (destroy_live w self h ty c Hl) as (w' & d' & -> & Hl' & _).
    by eexists.
Qed.

Lemma perform_all_live self h ty ops w c :
  live w self h ty c ->
  exists c', live (perform_all registry self ops w) self h ty c'.
Proof.
  revert w c. unfold perform_all.
  induction ops as [|op ops IH]; intros w c Hl; cbn; [by exists c|].
  destruct (perform_live self h ty op w c Hl) as (c' & Hl').
  by apply (IH _ c').
Qed.

(** X7. Each operation on a handler ([handleCommand], [emitEvent],
    [applyInitialSessionDataItems], [destroy]), and so any sequence of
    them, writes at most two objects: the ModuleCache and the
    EventsDispatcher the handler's fields refer to.  Every other object in
    the heap is left as it was, whether the calls return or throw. *)
Theorem operations_write_only_owned_objects self h ops w r :
  heap w !! self = Some (OHandler h) ->
  r <> _moduleCache h ->
  r <> _eventsDispatcher h ->
  heap (perform_all registry self ops w) !! r = heap w !! r.
Proof.
  intros Hh Hc Hd. revert w Hh. unfold perform_all.
  induction ops as [|op ops IH]; intros w Hh; cbn; [done|].
  rewrite IH by (by apply perform_preserves_handler).
  by apply (perform_footprint registry r self h).
Qed.

(** X8. Two handlers created one after the other share nothing: they are
    different objects with different ModuleCache and EventsDispatcher
    objects, creating the second leaves the first and what it owns as they
    were, and no sequence of operations on the second changes the first
    handler, its ModuleCache or its EventsDispatcher. *)
Theorem handlers_share_nothing cls1 sid1 ctx1 cls2 sid2 ctx2 w0 self1 w1 self2 w2 :
  new_MessageHandler cls1 sid1 ctx1 w0 = (Normal self1, w1) ->
  new_MessageHandler cls2 sid2 ctx2 w1 = (Normal self2, w2) ->
  exists h1 h2,
    heap w1 !! self1 = Some (OHandler h1)
    /\ heap w2 !! self2 = Some (OHandler h2)
    /\ self1 <> self2
    /\ _moduleCache h1 <> _moduleCache h2
    /\ _eventsDispatcher h1 <> _eventsDispatcher h2
    /\ forall ops,
        let w := perform_all registry self2 ops w2 in
        heap w !! self1 = heap w1 !! self1
        /\ heap w !! _moduleCache h1 = heap w1 !! _moduleCache h1
        /\ heap w !! _eventsDispatcher h1 = heap w1 !! _eventsDispatcher h1.
Proof.
  intros Hn1 Hn2.
  destruct (static_getIdFromContext cls1 ctx1) as [cid1|e] eqn:Hid1;
    [|apply (new_MessageHandler_throws cls1 sid1 ctx1 w0) in Hid1;
      rewrite Hn1 in Hid1; discriminate].
  destruct (static_getIdFromContext cls2 ctx2) as [cid2|e] eqn:Hid2;
    [|apply (new_MessageHandler_throws cls2 sid2 ctx2 w1) in Hid2;
      rewrite Hn2 in Hid2; discriminate].
  assert (next w1 = S (S (S (next w0)))) as Hnext.
  { revert Hn1. unfold_handler. run. rewrite Hid1. cbn. by intros [= _ <-]. }
  assert (forall r, r < next w1 -> heap w2 !! r = heap w1 !! r) as Hold.
  { intros r Hr. revert Hn2. unfold_handler. run. rewrite Hid2. cbn.
    intros [= _ <-]. cbn. by rewrite !lookup_insert_ne by lia. }
  destruct (new_MessageHandler_returns cls1 sid1 ctx1 w0 cid1 Hid1)
    as (w1' & Hr1 & Hh1 & Hc1 & Hd1 & _).
  destruct (new_MessageHandler_returns cls2 sid2 ctx2 w1 cid2 Hid2)
    as (w2' & Hr2 & Hh2 & Hc2 & Hd2 & _).
  rewrite Hr1 in Hn1. rewrite Hr2 in Hn2. simplify_eq.
  eexists _, _. split; [exact Hh1|]. split; [exact Hh2|]. cbn.
  split; [lia|]. split; [lia|]. split; [lia|].
  intros ops.
  rewrite !(perform_all_footprint registry _ _ _ ops _ Hh2) by (cbn; lia).
  rewrite !Hold by lia. done.
Qed.

(** X9. Nothing disables a handler.  After the constructor of a class that
    provides [type] has returned, and after any sequence of operations,
    [destroy] among them, the handler still has its ModuleCache and its
    EventsDispatcher: [destroy()] returns normally, and [handleCommand]
    ends in the UnsupportedCommandError or in the outcome of the module
    method or of [forwardCommand], never in an error of the runtime. *)
Theorem handler_usable_after_any_operations cls sid ctx w0 self w1 ty ops :
  new_MessageHandler cls sid ctx w0 = (Normal self, w1) ->
  static_type cls = Normal ty ->
  let w := perform_all registry self ops w1 in
  exists h c,
    live w self h ty c
    /\ constructor h = cls
    /\ (destroy self w).1 = Normal tt
    /\ forall cmd,
        (handleCommand registry self cmd w).1 =
        if class_supports registry ty cmd then
          match handles_locally registry ty c cmd with
          | Some m => inst_call m (commandName cmd) (params cmd) (destination cmd)
          | None => proto_forwardCommand cls cmd
          end
        else Throw (UnsupportedCommandError (unsupported_message cmd)).
Proof.
  intros Hnew Hty w.
  destruct (new_MessageHandler_live cls sid ctx w0 self w1 ty Hnew Hty)
    as (h & c0 & Hl0 & Hcls & _).
  destruct (perform_all_live self h ty ops w1 c0 Hl0) as (c & Hl).
  fold w in Hl. exists h, c. split; [done|]. split; [done|]. split.
  - by destruct (destroy_live w self h ty c Hl) as (w' & d & -> & _).
  - intros cmd. destruct (class_supports registry ty cmd) eqn:Hs.
    + destruct (handles_locally registry ty c cmd) as [m|] eqn:Hm.
      * by rewrite (handleCommand_local registry w self h ty c cmd m Hl Hs Hm).
      * rewrite (handleCommand_forward registry w self h ty c cmd Hl Hs Hm).
        by rewrite <- Hcls.
    + by rewrite (handleCommand_unsupported registry w self h ty c cmd Hl Hs).
Qed.

(** X10. A destroyed handler still emits.  After the constructor has
    returned, and after any sequence of operations, [destroy] among them,
    [emitEvent] returns normally and calls [emit] with the envelope that
    carries the session id given to the constructor (and with the bare event
    unless it is a protocol event). *)
Theorem emitEvent_after_any_operations cls sid ctx w0 self w1 ops n d o :
  new_MessageHandler cls sid ctx w0 = (Normal self, w1) ->
  let w := perform_all registry self ops w1 in
  (emitEvent self n d o w).1 = Normal tt
  /\ effects_since w (emitEvent self n d o w).2 = emitEvent_effects self sid n d o.
Proof.
  intros Hnew w.
  destruct (static_getIdFromContext cls ctx) as [cid|e] eqn:Hid;
    [|apply (new_MessageHandler_throws cls sid ctx w0) in Hid;
      rewrite Hnew in Hid; discriminate].
  destruct (new_MessageHandler_returns cls sid ctx w0 cid Hid)
    as (w1' & Hr & Hh & _).
  rewrite Hr in Hnew. simplify_eq.
  pose proof (perform_all_preserves_handler registry _ _ ops w1 Hh) as Hw.
  fold w in Hw. rewrite (emitEvent_run w _ _ n d o Hw). cbn.
  split; [done|]. by erewrite (effects_since_app w) by reflexivity.
Qed.

(** X11. [toString()] of a handler of a class that provides [type] is
    "[object C N]", with C the name of the class and N the handler's
    [name], and stays so after any sequence of operations. *)
Theorem toString_after_any_operations cls sid ctx w0 self w1 ty cid ops :
  new_MessageHandler cls sid ctx w0 = (Normal self, w1) ->
  static_type cls = Normal ty ->
  static_getIdFromContext cls ctx = Normal cid ->
  let w := perform_all registry self ops w1 in
  toString self w
  = (Normal ("[object " +:+ class_name cls +:+ " "
             +:+ (sid +:+ "-" +:+ ty +:+ "-" +:+ cid) +:+ "]"), w).
Proof.
  intros Hnew Hty Hid w.
  destruct (new_MessageHandler_returns cls sid ctx w0 cid Hid)
    as (w1' & Hr & Hh & _).
  rewrite Hr in Hnew. simplify_eq.
  pose proof (perform_all_preserves_handler registry _ _ ops w1 Hh) as Hw.
  fold w in Hw. unfold toString, name, sessionId, contextId. run.
  rewrite !Hw. cbn. rewrite Hty. cbn. by rewrite ?Hw.
Qed.

End Usable.

Lemma operations_write_only_owned_objects_witness :
  heap (perform_all Fixture.leafRegistry 3 Fixture.session Scenario.twoLeavesWorld)
  !! 0 = heap Scenario.twoLeavesWorld !! 0.
Proof.
  apply (operations_write_only_owned_objects Fixture.leafRegistry 3
           Scenario.secondLeafHandler Fixture.session Scenario.twoLeavesWorld 0).
  - vm_compute. reflexivity.
  - cbn. lia.
  - cbn. lia.
Defined.

Lemma handlers_share_nothing_witness :
  heap (perform_all Fixture.leafRegistry 3 Fixture.session Scenario.twoLeavesWorld)
  !! 0 = heap Fixture.leafWorld !! 0.
Proof.
  destruct (handlers_share_nothing Fixture.leafRegistry
              Fixture.Leaf "S1" (VStr "ctx-42") Fixture.Leaf "S1" (VStr "ctx-43")
              empty_world 0 Fixture.leafWorld 3 Scenario.twoLeavesWorld)
    as (h1 & h2 & _ & _ & _ & _ & _ & Hops).
  - vm_compute. reflexivity.
  - vm_compute. reflexivity.
  - exact (proj1 (Hops Fixture.session)).
Defined.

Lemma handler_usable_after_any_operations_witness :
  (destroy 0 (perform_all Fixture.leafRegistry 0 Fixture.session Fixture.leafWorld)).1
  = Normal tt.
Proof.
  destruct (handler_usable_after_any_operations Fixture.leafRegistry
              Fixture.Leaf "S1" (VStr "ctx-42") empty_world 0 Fixture.leafWorld
              "Leaf" Fixture.session)
    as (h & c & _ & _ & Hd & _).
  - vm_compute. reflexivity.
  - reflexivity.
  - exact Hd.
Defined.

Lemma emitEvent_after_any_operations_witness :
  (emitEvent 0 "nav.navigated" VNull None
     (perform_all Fixture.leafRegistry 0 Fixture.session Fixture.leafWorld)).1
  = Normal tt.
Proof.
  refine (proj1 (emitEvent_after_any_operations Fixture.leafRegistry
                   Fixture.Leaf "S1" (VStr "ctx-42") empty_world 0
                   Fixture.leafWorld Fixture.session "nav.navigated" VNull None _)).
  vm_compute. reflexivity.
Defined.

Lemma toString_after_any_operations_witness :
  toString 0 (perform_all Fixture.leafRegistry 0 Fixture.session Fixture.leafWorld)
  = (Normal "[object LeafMessageHandler S1-Leaf-ctx-42]",
     perform_all Fixture.leafRegistry 0 Fixture.session Fixture.leafWorld).
Proof.
  apply (toString_after_any_operations Fixture.leafRegistry Fixture.Leaf "S1"
           (VStr "ctx-42") empty_world 0 Fixture.leafWorld "Leaf" "ctx-42"
           Fixture.session).
  - vm_compute. reflexivity.
  - reflexivity.
  - reflexivity.
Defined.

(** ** [name] as a key *)

Lemma append_nil_l (b : string) : "" +:+ b = b.
Proof. reflexivity. Qed.

Lemma append_cons (x : ascii) (a b : string) :
  String x a +:+ b = String x (a +:+ b).
Proof. reflexivity. Qed.

Lemma append_assoc (a b c : string) : (a +:+ b) +:+ c = a +:+ b +:+ c.
Proof.
  induction a as [|x a IH]; [done|].
  rewrite !append_cons. by f_equal.
Qed.

Lemma length_append (a b : string) :
  String.length (a +:+ b) = String.length a + String.length b.
Proof.
  induction a as [|x a IH]; [done|].
  rewrite append_cons. cbn. by rewrite IH.
Qed.

Lemma split_at_first_dash a a' r r' :
  has_dash a = false -> has_dash a' = false ->
  a +:+ "-" +:+ r = a' +:+ "-" +:+ r' ->
  a = a' /\ r = r'.
Proof.
  revert a'. induction a as [|x a IH]; intros [|x' a'] Ha Ha' E;
    rewrite ?append_nil_l, ?append_cons in E; cbn in Ha, Ha'.
  - by simplify_eq.
  - injection E as <- _. by rewrite Ascii.eqb_refl in Ha'.
  - injection E as -> _. by rewrite Ascii.eqb_refl in Ha.
  - injection E as -> E.
    destruct (Ascii.eqb x' "-"); [done|].
    destruct (IH a' Ha Ha' E) as [-> ->]. done.
Qed.

Lemma name_run w self h ty :
  heap w !! self = Some (OHandler h) ->
  static_type (constructor h) = Normal ty ->
  name self w = (Normal (_sessionId h +:+ "-" +:+ ty +:+ "-" +:+ _contextId h), w).
Proof.
  intros Hh Hty. unfold name, sessionId, contextId. run.
  rewrite !Hh. cbn. rewrite Hty. cbn. by rewrite ?Hh.
Qed.

(** X12. [name] does not tell handlers apart: since the three parts are
    joined by "-", a handler of session "a-b" and type "c" has the same
    name as a handler of session "a" and type "b-c" for the same context
    id, although their session ids differ. *)
Theorem name_collision w1 self1 h1 w2 self2 h2 (a b c : string) :
  heap w1 !! self1 = Some (OHandler h1) ->
  heap w2 !! self2 = Some (OHandler h2) ->
  _sessionId h1 = a +:+ "-" +:+ b ->
  static_type (constructor h1) = Normal c ->
  _sessionId h2 = a ->
  static_type (constructor h2) = Normal (b +:+ "-" +:+ c) ->
  _contextId h1 = _contextId h2 ->
  (name self1 w1).1 = (name self2 w2).1
  /\ is_Normal (name self1 w1).1 = true
  /\ (sessionId self1 w1).1 <> (sessionId self2 w2).1.
Proof.
  intros Hh1 Hh2 Hs1 Ht1 Hs2 Ht2 Hc.
  rewrite (name_run w1 self1 h1 c Hh1 Ht1).
  rewrite (name_run w2 self2 h2 _ Hh2 Ht2). cbn.
  split; [|split; [done|]].
  - rewrite Hs1, Hs2, Hc. by rewrite !append_assoc.
  - unfold sessionId. run. rewrite Hh1, Hh2. cbn. rewrite Hs1, Hs2.
    intros [= E]. apply (f_equal String.length) in E.
    rewrite length_append, append_cons, append_nil_l in E. cbn in E. lia.
Qed.

Lemma name_collision_witness :
  (name 0 (new_MessageHandler Scenario.LeafB "a-b" (VStr "d") empty_world).2).1
  = (name 0 (new_MessageHandler Scenario.LeafA "a" (VStr "d") empty_world).2).1.
Proof.
  refine (proj1 (name_collision _ 0
                   {| constructor := Scenario.LeafB; _moduleCache := 1;
                      _sessionId := "a-b"; _context := VStr "d";
                      _contextId := "d"; _eventsDispatcher := 2 |}
                   _ 0
                   {| constructor := Scenario.LeafA; _moduleCache := 1;
                      _sessionId := "a"; _context := VStr "d";
                      _contextId := "d"; _eventsDispatcher := 2 |}
                   "a" "b" "c" _ _ _ _ _ _ _)).
  all: vm_compute; reflexivity.
Defined.

(** X13. When neither the session ids nor the types contain a "-", [name]
    does identify a handler: two handlers with the same name have the same
    session id, the same type and the same context id. *)
Theorem name_injective_without_dash w1 self1 h1 ty1 w2 self2 h2 ty2 :
  heap w1 !! self1 = Some (OHandler h1) ->
  heap w2 !! self2 = Some (OHandler h2) ->
  static_type (constructor h1) = Normal ty1 ->
  static_type (constructor h2) = Normal ty2 ->
  has_dash (_sessionId h1) = false -> has_dash ty1 = false ->
  has_dash (_sessionId h2) = false -> has_dash ty2 = false ->
  (name self1 w1).1 = (name self2 w2).1 ->
  _sessionId h1 = _sessionId h2 /\ ty1 = ty2 /\ _contextId h1 = _contextId h2.
Proof.
  intros Hh1 Hh2 Ht1 Ht2 Ds1 Dt1 Ds2 Dt2.
  rewrite (name_run w1 self1 h1 ty1 Hh1 Ht1).
  rewrite (name_run w2 self2 h2 ty2 Hh2 Ht2). cbn. intros [= E].
  destruct (split_at_first_dash _ _ _ _ Ds1 Ds2 E) as [Es E'].
  destruct (split_at_first_dash _ _ _ _ Dt1 Dt2 E') as [Et Ec].
  done.
Qed.

Lemma name_injective_without_dash_witness :
  (0 <> 3
   /\ heap Scenario.twinLeavesWorld !! 0 = Some (OHandler Fixture.leafHandler)
   /\ heap Scenario.twinLeavesWorld !! 3 = Some (OHandler Scenario.twinLeafHandler)
   /\ (name 0 Scenario.twinLeavesWorld).1 = (name 3 Scenario.twinLeavesWorld).1)
  /\ _sessionId Fixture.leafHandler = _sessionId Scenario.twinLeafHandler
  /\ "Leaf" = "Leaf"
  /\ _contextId Fixture.leafHandler = _contextId Scenario.twinLeafHandler.
Proof.
  split.
  - split; [lia|]. repeat split; vm_compute; reflexivity.
  - apply (name_injective_without_dash
             Scenario.twinLeavesWorld 0 Fixture.leafHandler "Leaf"
             Scenario.twinLeavesWorld 3 Scenario.twinLeafHandler "Leaf").
    all: vm_compute; reflexivity.
Defined.

(** ** The order of [destroy] *)

(** X14. On a live handler [destroy()] logs its line, tears down the
    EventsDispatcher, then the ModuleCache, destroying each cached module
    instance once (one [DestroyModule] per entry of the cache, for the
    class of the instance cached there) and leaving the cache empty, and
    only then emits "message-handler-destroyed", as the last thing it does
    and with the handler itself as payload; the handler object handed to
    the listeners is unchanged. *)
Theorem destroy_notifies_last w self h ty c :
  live w self h ty c ->
  let modules := (fun kv => inst_class kv.2) <$> map_to_list (mc_modules c) in
  exists w',
    destroy self w = (Normal tt, w')
    /\ effects_since w w' =
         LogTrace (destroyed_message ty (_sessionId h))
         :: DestroyEventsDispatcher (_eventsDispatcher h)
         :: DestroyModuleCache (_moduleCache h)
         :: (DestroyModule <$> modules)
         ++ [Emit self "message-handler-destroyed" (ArgHandler self)]
    /\ length modules = size (mc_modules c)
    /\ (forall k m, mc_modules c !! k = Some m ->
          DestroyModule (inst_class m) ∈ effects_since w w')
    /\ (forall name, DestroyModule name ∈ effects_since w w' ->
          exists k m, mc_modules c !! k = Some m /\ inst_class m = name)
    /\ heap w' !! _moduleCache h =
         Some (OModuleCache {| mc_messageHandler := self; mc_modules := ∅ |})
    /\ last (effects w') = Some (Emit self "message-handler-destroyed" (ArgHandler self))
    /\ heap w' !! self = Some (OHandler h).
Proof.
  intros Hl modules.
  destruct (destroy_live w self h ty c Hl) as (w' & d & Hrun & Hl' & _ & _ & He).
  assert (effects_since w w' =
          LogTrace (destroyed_message ty (_sessionId h))
          :: DestroyEventsDispatcher (_eventsDispatcher h)
          :: DestroyModuleCache (_moduleCache h)
          :: (DestroyModule <$> modules)
          ++ [Emit self "message-handler-destroyed" (ArgHandler self)]) as Hsince.
  { erewrite (effects_since_app w) by exact He. cbn. subst modules.
    by rewrite <- list_fmap_compose. }
  exists w'. split; [done|]. split; [done|].
  split; [|split; [|split; [|split; [|split]]]].
  - subst modules. by rewrite length_fmap, length_map_to_list.
  - intros k m Hk. rewrite Hsince. do 3 apply list_elem_of_further.
    apply elem_of_app. left. subst modules.
    apply list_elem_of_fmap. exists (inst_class m). split; [done|].
    apply list_elem_of_fmap. exists (k, m). split; [done|].
    by apply elem_of_map_to_list.
  - intros name0 Hin. rewrite Hsince in Hin.
    do 3 (apply elem_of_cons in Hin as [Hin|Hin]; [discriminate|]).
    apply elem_of_app in Hin as [Hin|Hin].
    + subst modules. apply list_elem_of_fmap in Hin as (cl & [= ->] & Hin).
      apply list_elem_of_fmap in Hin as ([k m] & -> & Hin).
      apply elem_of_map_to_list in Hin. by exists k, m.
    + apply list_elem_of_singleton in Hin. discriminate.
  - by destruct Hl'.
  - rewrite He. rewrite !app_assoc. by rewrite last_snoc.
  - by destruct Hl'.
Qed.

Lemma destroy_notifies_last_witness :
  effects_since Scenario.busyLeafWorld (destroy 0 Scenario.busyLeafWorld).2
  = [LogTrace "MessageHandler Leaf for session S1 is being destroyed";
     DestroyEventsDispatcher 2;
     DestroyModuleCache 1;
     DestroyModule "nav";
     Emit 0 "message-handler-destroyed" (ArgHandler 0)].
Proof.
  assert (live Scenario.busyLeafWorld 0 Fixture.leafHandler "Leaf"
               {| mc_messageHandler := 0;
                  mc_modules := {[ ("nav", Fixture.leafDestination)
                                   := Fixture.navInstance ]} |}) as Hl.
  { split; [vm_compute; reflexivity ..|]. eexists. vm_compute. reflexivity. }
  destruct (destroy_notifies_last Scenario.busyLeafWorld 0 Fixture.leafHandler
              "Leaf" _ Hl) as (w' & Hrun & Hsince & _).
  rewrite Hrun. cbn [snd]. rewrite Hsince.
  vm_compute. reflexivity.
Defined.

(** ** Asking and counting over a handler's life *)

Section Life.

Context (registry : ModuleRegistry).

(** X15. [supportsCommand] is a query: it changes nothing, instantiates no
    module, and for a constructed handler its answer is the same at any
    point of the handler's life, before or after commands were handled and
    after [destroy]: true exactly when a class listed for the handler's
    type, the module name and the destination supports the command name. *)
Theorem supportsCommand_stable_query cls sid ctx w0 self w1 ty ops cmd :
  new_MessageHandler cls sid ctx w0 = (Normal self, w1) ->
  static_type cls = Normal ty ->
  let w := perform_all registry self ops w1 in
  supportsCommand registry self (moduleName cmd) (commandName cmd)
                  (destination cmd) w
  = (Normal (class_supports registry ty cmd), w)
  /\ supportsCommand registry self (moduleName cmd) (commandName cmd)
                     (destination cmd) w1
     = (Normal (class_supports registry ty cmd), w1).
Proof.
  intros Hnew Hty w.
  destruct (new_MessageHandler_live cls sid ctx w0 self w1 ty Hnew Hty)
    as (h & c0 & Hl0 & _).
  destruct (perform_all_live registry self h ty ops w1 c0 Hl0) as (c & Hl).
  split.
  - by apply (supportsCommand_live registry w self h ty c).
  - by apply (supportsCommand_live registry w1 self h ty c0).
Qed.

Lemma perform_effects self h ty c op w n :
  live w self h ty c ->
  exists l,
    effects (perform registry self op w) = (effects w ++ l)%list
    /\ emissions n l = op_emissions n op.
Proof.
  intros Hl. pose proof Hl as [Hh Hty Hc Ho [d Hd]].
  destruct op as [cmd|nm dat o|items|]; cbn.
  - destruct (class_supports registry ty cmd) eqn:Hs.
    + destruct (handles_locally registry ty c cmd) as [m|] eqn:Hm.
      * rewrite (handleCommand_local registry w self h ty c cmd m Hl Hs Hm).
        by eexists.
      * rewrite (handleCommand_forward registry w self h ty c cmd Hl Hs Hm).
        by eexists.
    + rewrite (handleCommand_unsupported registry w self h ty c cmd Hl Hs).
      by eexists.
  - rewrite (emitEvent_run w self h nm dat o Hh). eexists. split; [done|].
    unfold emitEvent_effects, emissions.
    destruct (default false (o ≫= isProtocolEvent)); cbn;
      repeat case_bool_decide; repeat case_decide; simplify_eq/=; done.
  - unfold applyInitialSessionDataItems. run. rewrite Hh. cbn.
    destruct (proto_applyInitialSessionDataItems (constructor h) items);
      by eexists.
  - destruct (destroy_live w self h ty c Hl) as (w' & d' & -> & _ & _ & _ & He).
    eexists. split; [exact He|].
    rewrite !emissions_app, emissions_DestroyModule. unfold emissions. cbn.
    repeat case_bool_decide; repeat case_decide; simplify_eq/=; done.
Qed.

(** X16. Every [emit] of a handler is accounted for.  After the
    constructor of a class that provides [type] has returned, the number of
    [emit] calls under an event name over any sequence of operations is the
    sum of what each operation contributes: one "message-handler-destroyed"
    per [destroy()] call, however often it is called; one
    "message-handler-event" per [emitEvent] call, plus the event under its
    own name when it is not a protocol event; nothing for [handleCommand]
    and [applyInitialSessionDataItems]. *)
Theorem emissions_accounted_for cls sid ctx w0 self w1 ty ops n :
  new_MessageHandler cls sid ctx w0 = (Normal self, w1) ->
  static_type cls = Normal ty ->
  emissions n (effects_since w1 (perform_all registry self ops w1))
  = sum_list (op_emissions n <$> ops).
Proof.
  intros Hnew Hty.
  destruct (new_MessageHandler_live cls sid ctx w0 self w1 ty Hnew Hty)
    as (h & c0 & Hl0 & _).
  assert (forall ops w c, live w self h ty c ->
            exists l, effects (perform_all registry self ops w) = (effects w ++ l)%list
                      /\ emissions n l = sum_list (op_emissions n <$> ops)) as Hgen.
  { clear. unfold perform_all.
    induction ops as [|op ops IH]; intros w c Hl; cbn.
    - exists []. by rewrite app_nil_r.
    - destruct (perform_effects self h ty c op w n Hl) as (l1 & He1 & Hn1).
      destruct (perform_live registry self h ty op w c Hl) as (c' & Hl').
      destruct (IH _ c' Hl') as (l2 & He2 & Hn2).
      exists (l1 ++ l2)%list. rewrite He2, He1, <- app_assoc.
      split; [done|]. by rewrite emissions_app, Hn1, Hn2. }
  destruct (Hgen ops w1 c0 Hl0) as (l & He & Hn).
  by erewrite (effects_since_app w1) by exact He.
Qed.

End Life.

Lemma supportsCommand_stable_query_witness :
  (supportsCommand Fixture.leafRegistry 0 "nav" "go" Fixture.leafDestination
     (perform_all Fixture.leafRegistry 0 Fixture.session Fixture.leafWorld)).1
  = Normal true.
Proof.
  refine (f_equal fst
            (proj1 (supportsCommand_stable_query Fixture.leafRegistry
                      Fixture.Leaf "S1" (VStr "ctx-42") empty_world 0
                      Fixture.leafWorld "Leaf" Fixture.session Fixture.go _ _))).
  - vm_compute. reflexivity.
  - reflexivity.
Defined.

Lemma emissions_accounted_for_witness :
  emissions "message-handler-destroyed"
    (effects_since Fixture.leafWorld
       (perform_all Fixture.leafRegistry 0
          [OpDestroy; OpHandleCommand Fixture.go; OpDestroy; OpDestroy]
          Fixture.leafWorld))
  = 3.
Proof.
  refine (emissions_accounted_for Fixture.leafRegistry Fixture.Leaf "S1"
            (VStr "ctx-42") empty_world 0 Fixture.leafWorld "Leaf"
            [OpDestroy; OpHandleCommand Fixture.go; OpDestroy; OpDestroy]
            "message-handler-destroyed" _ _).
  - vm_compute. reflexivity.
  - reflexivity.
Defined.
